(** * BridgeWise graph-processor: ranking and metrics core

    A shallow embedding of the parts of
    [graph-processor-api/rank_my_connections.py],
    [graph-processor-api/precompute_graph.py],
    [graph-processor-api/similarity_builder.py] and
    [graph-processor-api/app.py] that decide the properties stated below.

    Conventions of the embedding:
    - Python floats are modelled as exact rationals [Q]; the concrete
      inputs of the counterexamples are chosen so that the float results
      coincide with the rational ones.
    - Python dicts keyed by person id are [gmap string Q]; [d.get(k, 0.0)]
      is [dict_get d k 0]; Python sets of strings are [gset string].
    - Python strings are [String.string]; [str.lower] and [str.strip] are
      modelled on ASCII characters.
    - Cypher queries are translated into list comprehensions over an
      explicit graph value (nodes, typed edges); the graph-analytics calls
      of the store (Louvain, betweenness) are kept as parameters. *)

From Stdlib Require Import QArith Qround Qminmax Lqa String Ascii Bool Sorted.
From stdpp Require Import base gmap strings list fin_maps.

Open Scope Q_scope.

(* ------------------------------------------------------------------ *)
(** ** Dict helpers *)

Definition dict_get (d : gmap string Q) (k : string) (dflt : Q) : Q :=
  match d !! k with Some v => v | None => dflt end.

(** [{k: f(k) for k in ks}] *)
Definition dict_from_keys (ks : list string) (f : string -> Q) : gmap string Q :=
  fold_left (fun m k => <[k := f k]> m) ks ∅.

(** Python's [min]/[max] on a non-empty list: the first extremal element. *)
Fixpoint py_min_from (acc : Q) (l : list Q) : Q :=
  match l with
  | [] => acc
  | y :: l' => py_min_from (if Qlt_le_dec y acc then y else acc) l'
  end.

Fixpoint py_max_from (acc : Q) (l : list Q) : Q :=
  match l with
  | [] => acc
  | y :: l' => py_max_from (if Qlt_le_dec acc y then y else acc) l'
  end.

(* ------------------------------------------------------------------ *)
(** ** [_minmax_on_subset] (rank_my_connections.py) *)

Definition minmax_on_subset (values : gmap string Q) (subset : list string)
  : gmap string Q :=
  let sub := map (fun k => dict_get values k 0) subset in
  match sub with
  | [] => dict_from_keys subset (fun _ => 0)
  | x :: rest =>
      let mn := py_min_from x rest in
      let mx := py_max_from x rest in
      if Qle_bool mx mn then dict_from_keys subset (fun _ => 0)
      else dict_from_keys subset (fun k => (dict_get values k 0 - mn) / (mx - mn))
  end.

(* ------------------------------------------------------------------ *)
(** ** String helpers: [str.lower], [str.strip], regex splits (ASCII) *)

Definition lower_char (c : ascii) : ascii :=
  let n := nat_of_ascii c in
  if (65 <=? n)%nat && (n <=? 90)%nat then ascii_of_nat (n + 32) else c.

Fixpoint str_map (f : ascii -> ascii) (s : string) : string :=
  match s with
  | EmptyString => EmptyString
  | String c s' => String (f c) (str_map f s')
  end.

Definition str_lower (s : string) : string := str_map lower_char s.

(** Python's [str.isspace] / regex [\s] on ASCII: 9..13 and 28..32. *)
Definition is_ws (c : ascii) : bool :=
  let n := nat_of_ascii c in
  ((9 <=? n)%nat && (n <=? 13)%nat) || ((28 <=? n)%nat && (n <=? 32)%nat).

Fixpoint drop_ws (l : list ascii) : list ascii :=
  match l with
  | [] => []
  | c :: l' => if is_ws c then drop_ws l' else l
  end.

(** [str.strip()] *)
Definition str_strip (s : string) : string :=
  string_of_list_ascii (rev (drop_ws (rev (drop_ws (list_ascii_of_string s))))).

(** Split at every separator character; consecutive separators give empty
    parts, which every caller below drops, so this agrees with splitting on
    runs ([re.split(r"[...]+", t)] followed by dropping empty parts). *)
Fixpoint split_acc (sep : ascii -> bool) (l : list ascii) (cur : list ascii)
  : list (list ascii) :=
  match l with
  | [] => [rev cur]
  | c :: l' => if sep c then rev cur :: split_acc sep l' [] else split_acc sep l' (c :: cur)
  end.

Definition split_on (sep : ascii -> bool) (s : string) : list string :=
  map string_of_list_ascii (split_acc sep (list_ascii_of_string s) []).

Definition nonempty (s : string) : bool := negb (String.eqb s EmptyString).

Definition str_mem (x : string) (l : list string) : bool := existsb (String.eqb x) l.

Definition ends_with (suf s : string) : bool :=
  let ls := list_ascii_of_string s in
  let lf := list_ascii_of_string suf in
  (List.length lf <=? List.length ls)%nat &&
  String.eqb (string_of_list_ascii (skipn (List.length ls - List.length lf) ls)) suf.

(** [t[:-1]] *)
Definition drop_last_char (s : string) : string :=
  String.substring 0 (String.length s - 1) s.

(** [sorted(set(xs))] on strings (code-point order). *)
Fixpoint insert_uniq (x : string) (l : list string) : list string :=
  match l with
  | [] => [x]
  | y :: l' =>
      match String.compare x y with
      | Lt => x :: l
      | Eq => l
      | Gt => y :: insert_uniq x l'
      end
  end.

Definition sorted_set (l : list string) : list string := fold_right insert_uniq [] l.

(* ------------------------------------------------------------------ *)
(** ** Query parsing: [_tokenize], [_parse_query] *)

(** Characters kept by [re.sub(r"[^a-z0-9\s/+&-]", " ", t)]. *)
Definition tok_keep (c : ascii) : bool :=
  let n := nat_of_ascii c in
  ((97 <=? n)%nat && (n <=? 122)%nat) || ((48 <=? n)%nat && (n <=? 57)%nat)
  || is_ws c || (n =? 47)%nat || (n =? 43)%nat || (n =? 38)%nat || (n =? 45)%nat.

(** Separators of [re.split(r"[ \t/+\-&]+", t)]. *)
Definition tok_sep (c : ascii) : bool :=
  let n := nat_of_ascii c in
  (n =? 32)%nat || (n =? 9)%nat || (n =? 47)%nat || (n =? 43)%nat
  || (n =? 45)%nat || (n =? 38)%nat.

(** [re.sub(r"\s+", " ", t).strip()] *)
Definition collapse_ws (s : string) : string :=
  String.concat " " (List.filter nonempty (split_on is_ws s)).

Definition tokenize (text : string) : list string :=
  if String.eqb text "" then []
  else
    let t := str_lower text in
    let t := str_map (fun c => if tok_keep c then c else " "%char) t in
    let t := collapse_ws t in
    if String.eqb t "" then [] else List.filter nonempty (split_on tok_sep t).

Definition ROLE_ROOTS : list string :=
  ["engineer"; "developer"; "manager"; "analyst"; "designer"; "scientist";
   "architect"; "software"; "backend"; "front"; "frontend"; "fullstack";
   "full-stack"; "data"; "ml"; "ai"; "qa"; "sre"; "devops";
   "security"; "mobile"; "ios"; "android"]%string.

Definition role_terms : list string :=
  ROLE_ROOTS ++ map (fun r => (r ++ "s")%string)
                    (List.filter (fun r => negb (ends_with "s" r)) ROLE_ROOTS).

Definition singularize (t : string) : string :=
  if ends_with "s" t && str_mem (drop_last_char t) ROLE_ROOTS
  then drop_last_char t else t.

Definition parse_query (goal_text : string) (all_skills : list string)
  : list string * list string :=
  let tokens := tokenize goal_text in
  let skills_set :=
    map (fun s => str_strip (str_lower s))
        (List.filter (fun s => nonempty s && nonempty (str_strip s)) all_skills) in
  let goal_skills := sorted_set (List.filter (fun t => str_mem t skills_set) tokens) in
  let goal_job_tokens :=
    sorted_set (map singularize
                    (List.filter (fun t => str_mem t role_terms || ends_with "engineer" t)
                            tokens)) in
  (goal_skills, goal_job_tokens).

(* ------------------------------------------------------------------ *)
(** ** Fuzzy company matching: [_levenshtein], [_fuzzy_normalize_companies] *)

(** One inner loop of [_levenshtein]: [prev] is [prev[j-1] :: prev[j] :: ...]
    and [left] is [cur[j-1]]; the result is [cur[1..]]. *)
Fixpoint lev_cur (ca : ascii) (bs : list ascii) (prev : list nat) (left : nat)
  : list nat :=
  match bs, prev with
  | cb :: bs', pj1 :: ((pj :: _) as prev') =>
      let ins := (pj + 1)%nat in
      let dele := (left + 1)%nat in
      let sub := (pj1 + (if Ascii.eqb ca cb then 0 else 1))%nat in
      let v := Nat.min ins (Nat.min dele sub) in
      v :: lev_cur ca bs' prev' v
  | _, _ => []
  end.

(** The outer loop [for i, ca in enumerate(a, 1)]. *)
Fixpoint lev_rows (xs : list ascii) (i : nat) (bs : list ascii) (prev : list nat)
  : list nat :=
  match xs with
  | [] => prev
  | ca :: xs' => lev_rows xs' (S i) bs (i :: lev_cur ca bs prev i)
  end.

Definition levenshtein (a b : string) : nat :=
  if String.eqb a b then 0%nat
  else if String.eqb a "" then String.length b
  else if String.eqb b "" then String.length a
  else
    let bs := list_ascii_of_string b in
    List.last (lev_rows (list_ascii_of_string a) 1 bs (List.seq 0 (List.length bs + 1))) 0%nat.

Definition lev_thresh (t u : string) : nat :=
  if (Nat.max (String.length t) (String.length u) <=? 8)%nat then 2%nat else 3%nat.

(** [abs(len(u) - len(t)) > 3] is the quick length filter (skip). *)
Definition lev_close (t u : string) : bool :=
  (Z.abs (Z.of_nat (String.length u) - Z.of_nat (String.length t)) <=? 3)%Z
  && (levenshtein t u <=? lev_thresh t u)%nat.

Definition prefix_either (t u : string) : bool := String.prefix t u || String.prefix u t.

(** One iteration of the loop over [targets]. *)
Definition fuzzy_step (u_set : gset string) (out : gset string) (t0 : string)
  : gset string :=
  let t := str_strip (str_lower t0) in
  if String.eqb t "" then out
  else if bool_decide (t ∈ u_set) then {[ t ]} ∪ out
  else
    match List.filter (prefix_either t) (elements u_set) with
    | (_ :: _) as sw => list_to_set sw ∪ out
    | [] => list_to_set (List.filter (lev_close t) (elements u_set)) ∪ out
    end.

Definition fuzzy_normalize_companies (targets universe : list string) : gset string :=
  let u_set : gset string := list_to_set (map str_lower universe) in
  fold_left (fuzzy_step u_set) targets ∅.

(* ------------------------------------------------------------------ *)
(** ** Graph model for the ranker's reads *)

Record Person := {
  p_id : string;
  p_skills : list string;               (* p.skills *)
  p_jobTitleCanonTokens : list string;  (* p.jobTitleCanonTokens *)
  p_company : option string;            (* p.company *)
  p_worked_at : list string             (* names of (p)-[:WORKED_AT]->(:Company) *)
}.

#[global] Instance Person_eq_dec : EqDecision Person.
Proof. solve_decision. Defined.

(** Person nodes keyed by their [id]; [KNOWS] relationships as pairs of
    endpoint ids (stored direction). *)
Record Graph := {
  g_persons : gmap string Person;
  g_knows : list (string * string)
}.

Definition opt_list {A} (o : option A) : list A :=
  match o with Some x => [x] | None => [] end.

(** [MATCH (me:Person {id:$meId})-[:KNOWS]-(p:Person)]: one row per
    matching relationship and direction. *)
Definition knows_neighbors (g : Graph) (me : string) : list Person :=
  match g_persons g !! me with
  | None => []
  | Some _ =>
      flat_map (fun e =>
                  (if String.eqb (fst e) me then opt_list (g_persons g !! snd e) else [])
                  ++ (if String.eqb (snd e) me then opt_list (g_persons g !! fst e) else []))
               (g_knows g)
  end.

(** The [companies] list of the candidate query: with the Company schema,
    [relCompanies + [propCompany]] (when non-empty); otherwise
    [[toLower(p.company)]] (a null entry never satisfies [x IN $companyList]). *)
Definition cand_company_list (schema_has_company : bool) (p : Person) : list string :=
  if schema_has_company then
    map str_lower (p_worked_at p)
    ++ match p_company p with
       | Some c => if nonempty (str_lower c) then [str_lower c] else []
       | None => []
       end
  else opt_list (option_map str_lower (p_company p)).

Definition skill_cond (skillList : list string) (p : Person) : bool :=
  existsb (fun s => str_mem (str_lower s) skillList) (p_skills p).

Definition job_cond (jobTokens : list string) (p : Person) : bool :=
  existsb (fun t => str_mem t jobTokens) (p_jobTitleCanonTokens p).

Definition company_cond (schema : bool) (companyList : list string) (p : Person) : bool :=
  existsb (fun x => str_mem x companyList) (cand_company_list schema p).

(** Python truthiness of [Optional[List[str]]]. *)
Definition py_truthy_list (o : option (list string)) : bool :=
  match o with Some (_ :: _) => true | _ => false end.

Definition list_or_empty (o : option (list string)) : list string :=
  match o with Some l => l | None => [] end.

(** [_fetch_candidate_connections]; [schema] is [_SCHEMA_HAS_COMPANY]. *)
Definition fetch_candidate_connections (g : Graph) (schema : bool) (me_id : string)
  (goal_skills goal_job_tokens goal_companies : option (list string)) : list string :=
  let has_skill := py_truthy_list goal_skills in
  let has_job := py_truthy_list goal_job_tokens in
  let has_company := py_truthy_list goal_companies in
  if negb (has_skill || has_job || has_company) then
    remove_dups (map p_id (knows_neighbors g me_id))
  else
    let skillList := map str_lower (list_or_empty goal_skills) in
    let jobTokens := list_or_empty goal_job_tokens in
    let companyList := map str_lower (list_or_empty goal_companies) in
    let where_clause (p : Person) : bool :=
      if has_job && has_company && negb has_skill then
        (has_job && job_cond jobTokens p) && (has_company && company_cond schema companyList p)
      else
        (has_skill && skill_cond skillList p) || (has_job && job_cond jobTokens p)
        || (has_company && company_cond schema companyList p) in
    let rows := if schema then remove_dups (knows_neighbors g me_id)
                else knows_neighbors g me_id in
    map p_id (List.filter where_clause rows).

(* ------------------------------------------------------------------ *)
(** ** Errors and Python call binding *)

Inductive PyError := ValueError | TypeError | ProjectionError.

(** Arguments after the driver in a call of [_fetch_candidate_connections]. *)
Inductive PyArg := ArgStr (s : string) | ArgStrList (l : option (list string)).

Definition arg_str (a : PyArg) : string :=
  match a with ArgStr s => s | _ => "" end.
Definition arg_list (a : PyArg) : option (list string) :=
  match a with ArgStrList l => l | _ => None end.

(** Python binds positional arguments to the signature
    [(driver, me_id, goal_skills, goal_job_tokens, goal_companies)]; none
    has a default, so any other number of arguments raises [TypeError]. *)
Definition call_fetch_candidate_connections (g : Graph) (schema : bool)
  (args : list PyArg) : PyError + list string :=
  match args with
  | [a1; a2; a3; a4] =>
      inr (fetch_candidate_connections g schema (arg_str a1) (arg_list a2)
             (arg_list a3) (arg_list a4))
  | _ => inl TypeError
  end.

(** [_fetch_all_skills]: distinct non-empty [toLower(trim(s))]. *)
Definition fetch_all_skills (g : Graph) : list string :=
  remove_dups (List.filter nonempty
    (map (fun s => str_lower (str_strip s))
         (flat_map p_skills (map snd (map_to_list (g_persons g)))))).

(** [l[:n]] *)
Definition py_slice_to {A} (l : list A) (n : Z) : list A :=
  if (0 <=? n)%Z then firstn (Z.to_nat n) l
  else firstn (List.length l - Z.to_nat (- n)) l.

(* ------------------------------------------------------------------ *)
(** ** HTTP endpoint [POST /rank-connections/explain] (app.py) *)

Record RankConnectionsExplainRequest := {
  ex_me_id : string;
  ex_query : string;
  ex_pinecone_top_k : Z;
  ex_prefilter : bool;
  ex_sample : Z
}.

Record ExplainBody := {
  eb_query : string;
  eb_goal_skills : list string;
  eb_goal_job_tokens : list string;
  eb_candidate_count : nat;
  eb_candidate_sample : list string
}.

(** An unhandled exception in a handler is answered with status 500. *)
Inductive Response (A : Type) := HTTP200 (body : A) | HTTP500 (err : PyError).
Arguments HTTP200 {A}.
Arguments HTTP500 {A}.

Definition rank_connections_explain (g : Graph) (schema : bool)
  (req : RankConnectionsExplainRequest) : Response ExplainBody :=
  let all_skills := fetch_all_skills g in
  let '(goal_skills, goal_job_tokens) := parse_query (ex_query req) all_skills in
  match call_fetch_candidate_connections g schema
          [ArgStr (ex_me_id req);
           ArgStrList (if ex_prefilter req then Some goal_skills else None);
           ArgStrList (if ex_prefilter req then Some goal_job_tokens else None)] with
  | inl e => HTTP500 e
  | inr cands =>
      HTTP200 {| eb_query := ex_query req;
                 eb_goal_skills := goal_skills;
                 eb_goal_job_tokens := goal_job_tokens;
                 eb_candidate_count := List.length cands;
                 eb_candidate_sample := py_slice_to cands (ex_sample req) |}
  end.

(* ------------------------------------------------------------------ *)
(** ** The connection ranker ([rank_my_connections]) *)

Record PersonFeatures := {
  f_skills : list string;
  f_job_tokens : list string;
  f_bp_skills : Q;
  f_bp_job : Q;
  f_name : string;
  f_title : string
}.

Record Components := {
  vec_sim : Q;
  skill_match : Q;
  job_match : Q;
  struct_global : Q;
  struct_ego : Q;
  company_match : Q
}.

Record RankedPerson := {
  rp_id : string;
  rp_name : string;
  rp_title : string;
  rp_score : Q;
  rp_components : Components
}.

Definition jaccard (a b : gset string) : Q :=
  if bool_decide (a = ∅) && bool_decide (b = ∅) then 0
  else
    let inter := size (a ∩ b) in
    let union := size (a ∪ b) in
    if (union =? 0)%nat then 0 else inject_Z (Z.of_nat inter) / inject_Z (Z.of_nat union).

(** [s in t] for strings. *)
Fixpoint str_contains (s t : string) : bool :=
  String.prefix s t ||
  match t with EmptyString => false | String _ t' => str_contains s t' end.

Definition expand_job_tokens (tokens : list string) : gset string :=
  list_to_set tokens
  ∪ list_to_set (flat_map (fun tok =>
        if (String.length tok <? 6)%nat then []
        else List.filter (fun root => str_contains root tok && negb (String.eqb root tok))
                         ROLE_ROOTS) tokens).

(** [_pinecone_similarity] on the list of [(id, score)] matches returned by
    the vector store (a later match with the same id overwrites). *)
Definition pinecone_similarity (matches : list (string * Q))
  (allowed : option (list string)) : gmap string Q :=
  fold_left (fun out m =>
               match allowed with
               | None => <[fst m := snd m]> out
               | Some al => if str_mem (fst m) al then <[fst m := snd m]> out else out
               end) matches ∅.

(** [for pid in candidate_ids: vec_sim.setdefault(pid, 0.0)] *)
Definition setdefault_all (d : gmap string Q) (ks : list string) : gmap string Q :=
  fold_left (fun m k => match m !! k with Some _ => m | None => <[k := 0]> m end) ks d.

(** Python's [round(x, 6)]: round half to even at the sixth decimal. *)
Definition round_half_even (q : Q) : Z :=
  let f := Qfloor q in
  match Qcompare (q - inject_Z f) (1#2) with
  | Lt => f
  | Gt => (f + 1)%Z
  | Eq => if Z.even f then f else (f + 1)%Z
  end.

Definition round6 (q : Q) : Q := Qmake (round_half_even (q * inject_Z 1000000)) 1000000.

Definition Weights : Type := (Q * Q * Q * Q * Q * Q)%type.

(** The weight unpacking at the top of [rank_my_connections]. *)
Definition unpack_weights (ws : list Q) : PyError + Weights :=
  match ws with
  | [a; b; g; d; e] => inr (a, b, g, d, e, 0)
  | [a; b; g; d; e; z] => inr (a, b, g, d, e, z)
  | _ => inl ValueError
  end.

Definition final_score (w : Weights) (c : Components) : Q :=
  let '(a, b, g, d, e, z) := w in
  a * vec_sim c + b * skill_match c + g * job_match c
  + d * struct_global c + e * struct_ego c + z * company_match c.

(** Steps 3 to 7 of [rank_my_connections] for a non-empty candidate list:
    the per-candidate components and the raw (rounded) score.  The store
    reads are inputs: [matches] is the vector-store answer, [feats] the rows
    of [_fetch_candidate_features], [ego_raw] the result of
    [_ego_bridging_on_knows], [cand_companies] that of
    [_fetch_candidate_companies]. *)
Definition rank_scored (w : Weights) (candidate_ids : list string)
  (matches : list (string * Q)) (feats : gmap string PersonFeatures)
  (ego_raw : gmap string Q) (goal_skills goal_job_tokens goal_companies : list string)
  (cand_companies : gmap string (gset string)) : list RankedPerson :=
  let vec := setdefault_all (pinecone_similarity matches (Some candidate_ids)) candidate_ids in
  let sego := minmax_on_subset ego_raw candidate_ids in
  let goal_skill_set : gset string := list_to_set (map str_lower goal_skills) in
  let goal_job_set : gset string := list_to_set goal_job_tokens in
  let goal_company_set : gset string := list_to_set goal_companies in
  let skill_m : gmap string Q :=
    (fun f => jaccard goal_skill_set (list_to_set (f_skills f))) <$> feats in
  let job_m : gmap string Q :=
    (fun f => jaccard goal_job_set (expand_job_tokens (f_job_tokens f))) <$> feats in
  let comp_m : gmap string Q :=
    map_imap (fun pid _ =>
                Some (if bool_decide (goal_company_set = ∅) then 0
                      else jaccard goal_company_set
                             (match cand_companies !! pid with Some s => s | None => ∅ end)))
             feats in
  let combined_bp : gmap string Q := (fun f => f_bp_skills f + f_bp_job f) <$> feats in
  let sglob := minmax_on_subset combined_bp candidate_ids in
  flat_map (fun pid =>
              match feats !! pid with
              | None => []
              | Some f =>
                  let c := {| vec_sim := dict_get vec pid 0;
                              skill_match := dict_get skill_m pid 0;
                              job_match := dict_get job_m pid 0;
                              struct_global := dict_get sglob pid 0;
                              struct_ego := dict_get sego pid 0;
                              company_match := dict_get comp_m pid 0 |} in
                  [{| rp_id := pid;
                      rp_name := if nonempty (f_name f) then f_name f else pid;
                      rp_title := f_title f;
                      rp_score := round6 (final_score w c);
                      rp_components := c |}]
              end) candidate_ids.

Definition set_score (r : RankedPerson) (s : Q) : RankedPerson :=
  {| rp_id := rp_id r; rp_name := rp_name r; rp_title := rp_title r;
     rp_score := s; rp_components := rp_components r |}.

(** Python truthiness of [Optional[float]]. *)
Definition py_truthy_float (o : option Q) : bool :=
  match o with Some t => negb (Qeq_bool t 0) | None => false end.

(** The optional rescale step:
    [max_score_val = max(r.score for r in scored) or 1.0]; if positive,
    [r.score = round((r.score / max_score_val) * rescale_top, 6)]. *)
Definition rescale (rescale_top : option Q) (scored : list RankedPerson)
  : list RankedPerson :=
  match rescale_top, scored with
  | Some t, r0 :: rest =>
      if py_truthy_float (Some t) then
        let m0 := py_max_from (rp_score r0) (map rp_score rest) in
        let m := if Qeq_bool m0 0 then 1 else m0 in
        if Qlt_le_dec 0 m then map (fun r => set_score r (round6 (rp_score r / m * t))) scored
        else scored
      else scored
  | _, _ => scored
  end.

(** [scored.sort(key=lambda r: r.score, reverse=True)]: a stable sort by
    descending score (equal scores keep their relative order). *)
Fixpoint insert_desc (x : RankedPerson) (l : list RankedPerson) : list RankedPerson :=
  match l with
  | [] => [x]
  | y :: l' => if Qlt_le_dec (rp_score y) (rp_score x) then x :: l else y :: insert_desc x l'
  end.

Definition sort_desc (l : list RankedPerson) : list RankedPerson :=
  fold_left (fun acc x => insert_desc x acc) l [].

Definition rank_my_connections (ws : list Q) (candidate_ids : list string)
  (matches : list (string * Q)) (feats : gmap string PersonFeatures)
  (ego_raw : gmap string Q) (goal_skills goal_job_tokens goal_companies : list string)
  (cand_companies : gmap string (gset string)) (top_k : Z) (rescale_top : option Q)
  : PyError + list RankedPerson :=
  match unpack_weights ws with
  | inl e => inl e
  | inr w =>
      match candidate_ids with
      | [] => inr []
      | _ =>
          if bool_decide (feats = ∅) then inr []
          else
            let scored := rank_scored w candidate_ids matches feats ego_raw
                            goal_skills goal_job_tokens goal_companies cand_companies in
            inr (py_slice_to (sort_desc (rescale rescale_top scored)) top_k)
      end
  end.

(* ------------------------------------------------------------------ *)
(** ** HTTP endpoint [POST /rank-connections/batch]: the weights it passes *)

Record RankConnectionsBatchRequest := {
  bt_me_id : string;
  bt_queries : list string;
  bt_top_k : Z;
  bt_pinecone_top_k : Z;
  bt_prefilter : bool;
  bt_w_vec : Q;
  bt_w_skill : Q;
  bt_w_job : Q;
  bt_w_struct_global : Q;
  bt_w_struct_ego : Q;
  bt_rescale_top : option Q
}.

Definition batch_weights (req : RankConnectionsBatchRequest) : list Q :=
  [bt_w_vec req; bt_w_skill req; bt_w_job req; bt_w_struct_global req; bt_w_struct_ego req].

(* ------------------------------------------------------------------ *)
(** ** Metrics engine ([run_metrics_generic], precompute_graph.py) *)

(** One similarity layer: the Person ids and the relationships of type
    [relationship_type] (stored direction, endpoint ids). *)
Record LayerGraph := {
  lg_persons : list string;
  lg_rels : list (string * string)
}.

(** The per-layer metric properties of a person ([None] = not set). *)
Record Props := {
  pr_community : option Z;
  pr_betweenness : option Q;
  pr_degree : option Z;
  pr_bridgeCoeff : option Q;
  pr_bridgePotential : option Q
}.

Definition props0 : Props :=
  {| pr_community := None; pr_betweenness := None; pr_degree := None;
     pr_bridgeCoeff := None; pr_bridgePotential := None |}.

Definition get_props (st : gmap string Props) (k : string) : Props :=
  match st !! k with Some p => p | None => props0 end.

Definition update_props (k : string) (f : Props -> Props) (st : gmap string Props)
  : gmap string Props :=
  <[k := f (get_props st k)]> st.

(** The graph-analytics library: Louvain and betweenness on a projection
    (node ids, relationships), and whether the Cypher projection rejects
    relationships whose endpoints are not among the projected nodes. *)
Record Gds := {
  gds_louvain : list string -> list (string * string) -> string -> Z;
  gds_betweenness : list string -> list (string * string) -> string -> Q;
  gds_validate_relationships : bool
}.

(** [OPTIONAL MATCH (p)-[:R]-(n) ... collect(DISTINCT n)] *)
Definition rel_neighbors (rels : list (string * string)) (p : string) : list string :=
  remove_dups
    (flat_map (fun e => (if String.eqb (fst e) p then [snd e] else [])
                        ++ (if String.eqb (snd e) p then [fst e] else [])) rels).

Definition rel_degree (rels : list (string * string)) (p : string) : nat :=
  List.length (rel_neighbors rels p).

(** The rows of the bridging query: [UNWIND neigh] drops every person with
    no neighbour, the others give [(id, degree, neighbourDegrees)]. *)
Definition bridging_rows (g : LayerGraph) : list (string * nat * list nat) :=
  map (fun p => (p, rel_degree (lg_rels g) p,
                 map (rel_degree (lg_rels g)) (rel_neighbors (lg_rels g) p)))
      (List.filter (fun p => negb (bool_decide (rel_neighbors (lg_rels g) p = [])))
                   (lg_persons g)).

(** [sum(1.0 / d for d in neigh if d)] *)
Definition inv_sum (neigh : list nat) : Q :=
  fold_left (fun s d => if (d =? 0)%nat then s else s + 1 / inject_Z (Z.of_nat d)) neigh 0.

Definition bridge_coeff (deg : nat) (neigh : list nat) : Q :=
  if (0 <? deg)%nat && negb (bool_decide (neigh = [])) then
    let s := inv_sum neigh in
    if Qlt_le_dec 0 s then (1 / inject_Z (Z.of_nat deg)) * (1 / s) else 0
  else 0.

(** The coefficient the bridging pass computes for person [p]. *)
Definition node_bridge_coeff (g : LayerGraph) (p : string) : Q :=
  bridge_coeff (rel_degree (lg_rels g) p)
               (map (rel_degree (lg_rels g)) (rel_neighbors (lg_rels g) p)).

(** [rel_query]: each relationship between persons once, as
    [(p1, p2)] with [p1.id < p2.id]. *)
Definition rel_query (g : LayerGraph) : list (string * string) :=
  flat_map (fun e =>
              if str_mem (fst e) (lg_persons g) && str_mem (snd e) (lg_persons g) then
                (if String.ltb (fst e) (snd e) then [e] else [])
                ++ (if String.ltb (snd e) (fst e) then [(snd e, fst e)] else [])
              else []) (lg_rels g).

Definition set_community (c : Z) (pr : Props) : Props :=
  {| pr_community := Some c; pr_betweenness := pr_betweenness pr; pr_degree := pr_degree pr;
     pr_bridgeCoeff := pr_bridgeCoeff pr; pr_bridgePotential := pr_bridgePotential pr |}.

Definition set_betweenness (b : Q) (pr : Props) : Props :=
  {| pr_community := pr_community pr; pr_betweenness := Some b; pr_degree := pr_degree pr;
     pr_bridgeCoeff := pr_bridgeCoeff pr; pr_bridgePotential := pr_bridgePotential pr |}.

(** [SET p.bridgeCoeff = c, p.bridgePotential = coalesce(p.betweenness, 0.0) * c,
        p.degree = coalesce($deg[rec.id], 0)] *)
Definition set_bridging (deg : Z) (c : Q) (pr : Props) : Props :=
  {| pr_community := pr_community pr; pr_betweenness := pr_betweenness pr;
     pr_degree := Some deg; pr_bridgeCoeff := Some c;
     pr_bridgePotential :=
       Some ((match pr_betweenness pr with Some b => b | None => 0 end) * c) |}.

Definition run_metrics_generic (gds : Gds) (g : LayerGraph) (exclude_ids : list string)
  (st : gmap string Props) : PyError + gmap string Props :=
  let nodes := List.filter (fun p => negb (str_mem p exclude_ids)) (lg_persons g) in
  let rels := rel_query g in
  if gds_validate_relationships gds
     && negb (forallb (fun e => str_mem (fst e) nodes && str_mem (snd e) nodes) rels)
  then inl ProjectionError
  else
    (* gds.louvain.write and gds.betweenness.write: projected nodes only *)
    let st1 := fold_left (fun s n => update_props n (set_community (gds_louvain gds nodes rels n)) s)
                         nodes st in
    let st2 := fold_left (fun s n => update_props n (set_betweenness (gds_betweenness gds nodes rels n)) s)
                         nodes st1 in
    (* the bridging pass over all persons of the layer *)
    let rows := bridging_rows g in
    let bridging : gmap string Q :=
      fold_left (fun m r => <[r.1.1 := bridge_coeff r.1.2 r.2]> m) rows ∅ in
    let degree_map : gmap string nat :=
      fold_left (fun m r => <[r.1.1 := r.1.2]> m) rows ∅ in
    let st3 := fold_left (fun s kv =>
                 update_props kv.1
                   (set_bridging (match degree_map !! kv.1 with
                                  | Some d => Z.of_nat d | None => 0%Z end) kv.2) s)
                 (map_to_list bridging) st2 in
    inr st3.

(* ------------------------------------------------------------------ *)
(** ** Similarity graph builder ([build_similar_edges], similarity_builder.py) *)

(** A person with the names of its [HAS_SKILL], [WORKED_AT] and
    [ATTENDED] targets (one entry per relationship). *)
Record SimPerson := {
  sp_id : string;
  sp_skills : list string;
  sp_companies : list string;
  sp_schools : list string
}.

(** [SIMILAR] relationships keyed by [(start id, end id)], with their weight. *)
Definition EdgeStore : Type := gmap (string * string) Q.

(** Number of [(p1)-[:X]->(v)<-[:X]-(p2)] paths ([count(s)] per pair). *)
Definition path_count (xs ys : list string) : nat :=
  List.length (flat_map (fun x => List.filter (String.eqb x) ys) xs).

(** [MATCH (p1:Person) ... (p2:Person) WHERE p1.id < p2.id]: ordered pairs. *)
Definition person_pairs (ps : list SimPerson) : list (SimPerson * SimPerson) :=
  flat_map (fun a => flat_map (fun b => if String.ltb (sp_id a) (sp_id b) then [(a, b)] else []) ps) ps.

Definition distinct_count_inter (xs ys : list string) : nat :=
  List.length (List.filter (fun x => str_mem x (remove_dups ys)) (remove_dups xs)).

(** Jaccard weight of the [jaccard] mode query. *)
Definition jaccard_weight (a b : SimPerson) : Q :=
  let s1 := remove_dups (sp_skills a) in
  let s2 := remove_dups (sp_skills b) in
  let inter := distinct_count_inter (sp_skills a) (sp_skills b) in
  let union := (List.length s1 + List.length s2 - inter)%nat in
  if (union =? 0)%nat then 0
  else inject_Z (Z.of_nat (path_count (sp_skills a) (sp_skills b))) / inject_Z (Z.of_nat union).

(** [MERGE (p1)-[r:SIMILAR]->(p2) SET r.weight = f(r.weight)] *)
Definition merge_edge (k : string * string) (f : option Q -> Q) (es : EdgeStore) : EdgeStore :=
  <[k := f (es !! k)]> es.

(** Rows of the shared-skills query: pairs with at least one shared skill
    (the [MATCH] needs a path) and [shared >= $min_shared]. *)
Definition base_rows (ps : list SimPerson) (min_shared : Z) (weight_mode : string)
  : list ((string * string) * Q) :=
  flat_map (fun ab =>
              let shared := path_count (sp_skills ab.1) (sp_skills ab.2) in
              if (0 <? shared)%nat && (min_shared <=? Z.of_nat shared)%Z then
                [((sp_id ab.1, sp_id ab.2),
                  if String.eqb weight_mode "count" then inject_Z (Z.of_nat shared)
                  else jaccard_weight ab.1 ab.2)]
              else []) (person_pairs ps).

(** Rows of a boost query: one row per shared value node (path). *)
Definition boost_rows (ps : list SimPerson) (attr : SimPerson -> list string)
  : list (string * string) :=
  flat_map (fun ab => repeat (sp_id ab.1, sp_id ab.2) (path_count (attr ab.1) (attr ab.2)))
           (person_pairs ps).

Definition apply_boost (rows : list (string * string)) (b : Q) (es : EdgeStore) : EdgeStore :=
  fold_left (fun m k => merge_edge k (fun o => (match o with Some w => w | None => 0 end) + b) m)
            rows es.

Definition build_similar_edges (ps : list SimPerson) (existing : EdgeStore)
  (min_shared_skills : Z) (weight_mode : string) (boost_company boost_school : Q)
  (clear_existing : bool) : EdgeStore :=
  let es0 := if clear_existing then ∅ else existing in
  let es1 := fold_left (fun m r => merge_edge r.1 (fun _ => r.2) m)
                       (base_rows ps min_shared_skills weight_mode) es0 in
  let es2 := if Qlt_le_dec 0 boost_company
             then apply_boost (boost_rows ps sp_companies) boost_company es1 else es1 in
  if Qlt_le_dec 0 boost_school
  then apply_boost (boost_rows ps sp_schools) boost_school es2 else es2.

(** An undirected [SIMILAR] relationship between the persons with ids [a], [b]. *)
Definition similar_between (es : EdgeStore) (a b : string) : Prop :=
  is_Some (es !! (a, b)) \/ is_Some (es !! (b, a)).

(* ------------------------------------------------------------------ *)
(** ** Company mentions in a query: [_parse_company_queries] *)

(** Characters kept by [re.sub(r"[^a-z0-9\s]", " ", lowered)]. *)
Definition company_keep (c : ascii) : bool :=
  let n := nat_of_ascii c in
  ((97 <=? n)%nat && (n <=? 122)%nat) || ((48 <=? n)%nat && (n <=? 57)%nat) || is_ws c.

(** [token_text = " " + " ".join(norm.split()) + " "] *)
Definition company_token_text (text : string) : string :=
  let lowered := str_lower text in
  let norm := str_map (fun c => if company_keep c then c else " "%char) lowered in
  let norm := collapse_ws norm in
  let tokens := List.filter nonempty (split_on is_ws norm) in
  (" " ++ String.concat " " tokens ++ " ")%string.

Definition parse_company_queries (text : string) (all_companies : list string) : list string :=
  if String.eqb text "" then []
  else
    let token_text := company_token_text text in
    sorted_set
      (flat_map (fun c =>
         if nonempty c then
           let c_low := str_strip (str_lower c) in
           if nonempty c_low then
             if str_contains (" " ++ c_low ++ " ") token_text then [c_low]
             else if str_contains (" at " ++ c_low ++ " ") token_text
                     || str_contains (" company " ++ c_low ++ " ") token_text
                  then [c_low] else []
           else []
         else []) all_companies).

(* ------------------------------------------------------------------ *)
(** ** The goal-based connector ranker of [precompute_graph.py] *)

(** [_minmax_norm] *)
Definition minmax_norm (values : list Q) : list Q :=
  match values with
  | [] => []
  | v0 :: rest =>
      let mn := py_min_from v0 rest in
      let mx := py_max_from v0 rest in
      if Qle_bool mx mn then map (fun _ => 0) values
      else map (fun v => (v - mn) / (mx - mn)) values
  end.

(** Separators of [re.split(r"[ /+&-]", s.lower())]. *)
Definition title_sep (c : ascii) : bool :=
  let n := nat_of_ascii c in
  (n =? 32)%nat || (n =? 47)%nat || (n =? 43)%nat || (n =? 38)%nat || (n =? 45)%nat.

(** [_tokenize_title] *)
Definition tokenize_title (s : string) : list string :=
  if String.eqb s "" then [] else List.filter nonempty (split_on title_sep (str_lower s)).

(** Python truthiness of a list. *)
Definition nonempty_list {A} (l : list A) : bool :=
  match l with [] => false | _ => true end.

(** Python truthiness of [Optional[str]]. *)
Definition py_truthy_str (o : option string) : bool :=
  match o with Some s => nonempty s | None => false end.

(** A row of [_fetch_people_for_ranking]. *)
Record ConnPerson := {
  cp_id : string;
  cp_name : string;
  cp_skills : list string;
  cp_canon_tokens : list string;
  cp_title_tokens : list string;
  cp_bS : Q; cp_bJ : Q; cp_bpS : Q; cp_bpJ : Q; cp_bcS : Q; cp_bcJ : Q
}.

(** A row after the scoring loop has set [skill_sim], [job_sim], [struct]
    and [score] on it. *)
Record Connector := {
  cn_person : ConnPerson;
  cn_skill_sim : Q;
  cn_job_sim : Q;
  cn_struct : Q;
  cn_score : Q
}.

(** The goal skills of step 1: the explicit list (lowercased, stripped,
    blanks dropped), or else [sorted(set(_tokenize_title(goal_text)) & all_skills)]. *)
Definition str_or_empty (o : option string) : string :=
  match o with Some s => s | None => "" end.

Definition goal_skill_list (all_skills : gset string) (goal_text : option string)
  (goal_skills : option (list string)) : list string :=
  let gs := map (fun s => str_strip (str_lower s))
                (List.filter (fun s => nonempty s && nonempty (str_strip s))
                             (list_or_empty goal_skills)) in
  if negb (nonempty_list gs) && py_truthy_str goal_text
  then sorted_set (List.filter (fun x => bool_decide (x ∈ all_skills))
                               (tokenize_title (str_or_empty goal_text)))
  else gs.

Definition goal_job_token_set (goal_text goal_title : option string) : gset string :=
  if py_truthy_str goal_title then list_to_set (tokenize_title (str_or_empty goal_title))
  else if py_truthy_str goal_text then list_to_set (tokenize_title (str_or_empty goal_text))
  else ∅.

(** The scoring loop [for i, p in enumerate(people)]. *)
Definition connector_scores (alpha beta gamma : Q) (skill_set job_tokens : gset string)
  (people : list ConnPerson) : list Connector :=
  let nbS := minmax_norm (map cp_bS people) in
  let nbJ := minmax_norm (map cp_bJ people) in
  let nbpS := minmax_norm (map cp_bpS people) in
  let nbpJ := minmax_norm (map cp_bpJ people) in
  let nbcS := minmax_norm (map cp_bcS people) in
  let nbcJ := minmax_norm (map cp_bcJ people) in
  map (fun ip : nat * ConnPerson =>
         let '(i, p) := ip in
         let p_skills : gset string :=
           list_to_set (map (fun s => str_strip (str_lower s))
                            (List.filter nonempty (cp_skills p))) in
         let canon : gset string := list_to_set (cp_canon_tokens p) in
         let role_tokens : gset string :=
           if bool_decide (canon = ∅) then list_to_set (cp_title_tokens p) else canon in
         let skill_sim := jaccard skill_set p_skills in
         let job_sim := jaccard job_tokens role_tokens in
         let struct := (nth i nbS 0 + nth i nbJ 0 + nth i nbpS 0 + nth i nbpJ 0
                        + nth i nbcS 0 + nth i nbcJ 0) / 6 in
         {| cn_person := p; cn_skill_sim := skill_sim; cn_job_sim := job_sim;
            cn_struct := struct;
            cn_score := alpha * skill_sim + beta * job_sim + gamma * struct |})
      (combine (seq 0 (length people)) people).

(** [list.sort(key=..., reverse=True)] for a key into [Q] (stable). *)
Fixpoint insert_by_desc {A} (key : A -> Q) (x : A) (l : list A) : list A :=
  match l with
  | [] => [x]
  | y :: l' => if Qlt_le_dec (key y) (key x) then x :: l else y :: insert_by_desc key x l'
  end.

Definition sort_by_desc {A} (key : A -> Q) (l : list A) : list A :=
  fold_left (fun acc x => insert_by_desc key x acc) l [].

(** [rank_connectors] (its return value; the optional [rankScore] write
    and the printing do not change it).  [all_skills] is the result of
    [_fetch_all_skills] and [people] that of [_fetch_people_for_ranking]. *)
Definition rank_connectors (all_skills : gset string) (goal_text : option string)
  (goal_skills : option (list string)) (goal_title : option string)
  (alpha_skills beta_job gamma_struct : Q) (top_k : Z) (people : list ConnPerson)
  : list Connector :=
  let skill_set : gset string := list_to_set (goal_skill_list all_skills goal_text goal_skills) in
  let job_tokens := goal_job_token_set goal_text goal_title in
  let scored := connector_scores alpha_skills beta_job gamma_struct skill_set job_tokens people in
  py_slice_to (sort_by_desc cn_score scored) top_k.

(* ------------------------------------------------------------------ *)
(** ** Orders and invariants used in the statements below *)

(** Strictly increasing in code-point order (what [sorted(set(...))] gives). *)
Definition str_lt (x y : string) : Prop := String.ltb x y = true.

(** Non-increasing by [key] (what [sort(key=..., reverse=True)] gives). *)
Definition key_desc {A} (key : A -> Q) (p q : A) : Prop := key q <= key p.

(** The bounds every cell [(i, j)] of the [_levenshtein] table meets. *)
Definition lev_cell_ok (i j v : nat) : Prop :=
  (v <= Nat.max i j /\ i - j <= v /\ j - i <= v)%nat.

(** Row [i] of the table, from column [j] on, meets [lev_cell_ok]. *)
Fixpoint lev_row_ok (i j : nat) (l : list nat) : Prop :=
  match l with
  | [] => True
  | v :: l' => lev_cell_ok i j v /\ lev_row_ok i (S j) l'
  end.

(* ================================================================== *)
(** * Properties *)

(* ------------------------------------------------------------------ *)
(** ** Dict construction and extremal values *)

Lemma fold_insert_keys_lookup (ks : list string) (f : string -> Q)
  (m0 : gmap string Q) (k : string) :
  fold_left (fun m k => <[k := f k]> m) ks m0 !! k
  = if bool_decide (k ∈ ks) then Some (f k) else m0 !! k.
Proof.
  revert m0. induction ks as [|x ks IH]; intros m0; cbn [fold_left].
  - case_bool_decide as Hk; [set_solver | done].
  - rewrite IH. destruct (decide (k ∈ ks)) as [Hin|Hnin].
    + rewrite !bool_decide_true; [done | set_solver | done].
    + rewrite (bool_decide_false (k ∈ ks)) by done.
      destruct (decide (x = k)) as [->|Hne].
      * rewrite bool_decide_true by set_solver. by rewrite lookup_insert_eq.
      * rewrite bool_decide_false by set_solver. by rewrite lookup_insert_ne.
Qed.

Lemma dict_from_keys_lookup (ks : list string) (f : string -> Q) (k : string) :
  dict_from_keys ks f !! k = if bool_decide (k ∈ ks) then Some (f k) else None.
Proof.
  unfold dict_from_keys. rewrite fold_insert_keys_lookup.
  case_bool_decide; [done|]. by rewrite lookup_empty.
Qed.

Lemma py_min_from_spec (acc : Q) (l : list Q) :
  py_min_from acc l <= acc /\ Forall (fun y => py_min_from acc l <= y) l.
Proof.
  revert acc. induction l as [|y l IH]; intros acc; simpl.
  - split; [apply Qle_refl | constructor].
  - destruct (Qlt_le_dec y acc) as [Hlt|Hle].
    + destruct (IH y) as [H1 H2]. split; [lra|]. constructor; [exact H1|exact H2].
    + destruct (IH acc) as [H1 H2]. split; [exact H1|]. constructor; [lra|exact H2].
Qed.

Lemma py_max_from_spec (acc : Q) (l : list Q) :
  acc <= py_max_from acc l /\ Forall (fun y => y <= py_max_from acc l) l.
Proof.
  revert acc. induction l as [|y l IH]; intros acc; simpl.
  - split; [apply Qle_refl | constructor].
  - destruct (Qlt_le_dec acc y) as [Hlt|Hle].
    + destruct (IH y) as [H1 H2]. split; [lra|]. constructor; [exact H1|exact H2].
    + destruct (IH acc) as [H1 H2]. split; [exact H1|]. constructor; [lra|exact H2].
Qed.

Lemma py_min_le_elem (x : Q) (rest : list Q) (v : Q) :
  In v (x :: rest) -> py_min_from x rest <= v.
Proof.
  destruct (py_min_from_spec x rest) as [H1 H2]. intros [<-|Hin]; [exact H1|].
  rewrite List.Forall_forall in H2. by apply H2.
Qed.

Lemma py_max_ge_elem (x : Q) (rest : list Q) (v : Q) :
  In v (x :: rest) -> v <= py_max_from x rest.
Proof.
  destruct (py_max_from_spec x rest) as [H1 H2]. intros [<-|Hin]; [exact H1|].
  rewrite List.Forall_forall in H2. by apply H2.
Qed.

Lemma normalized_unit (a mn mx : Q) :
  mn <= a -> a <= mx -> mn < mx -> 0 <= (a - mn) / (mx - mn) <= 1.
Proof.
  intros H1 H2 H3. split.
  - apply Qle_shift_div_l; lra.
  - apply Qle_shift_div_r; lra.
Qed.

(** Every value produced by [_minmax_on_subset] lies in [0, 1]. *)
Lemma minmax_on_subset_bounds (values : gmap string Q) (subset : list string)
  (k : string) (v : Q) :
  minmax_on_subset values subset !! k = Some v -> 0 <= v <= 1.
Proof.
  unfold minmax_on_subset. cbv zeta.
  destruct (map (fun k => dict_get values k 0) subset) as [|x rest] eqn:Hsub.
  - rewrite dict_from_keys_lookup. case_bool_decide; intros Hv; inversion Hv; lra.
  - destruct (Qle_bool (py_max_from x rest) (py_min_from x rest)) eqn:Hle.
    + rewrite dict_from_keys_lookup. case_bool_decide; intros Hv; inversion Hv; lra.
    + rewrite dict_from_keys_lookup. case_bool_decide as Hk; intros Hv; inversion Hv.
      assert (Hin : In (dict_get values k 0) (x :: rest)).
      { rewrite <- Hsub. apply (in_map (fun k => dict_get values k 0)).
        by apply list_elem_of_In. }
      apply normalized_unit.
      * by apply py_min_le_elem.
      * by apply py_max_ge_elem.
      * apply Qnot_le_lt. intros Hc. apply Qle_bool_iff in Hc. congruence.
Qed.

Lemma dict_get_minmax_bounds (values : gmap string Q) (subset : list string) (k : string) :
  0 <= dict_get (minmax_on_subset values subset) k 0 <= 1.
Proof.
  unfold dict_get. destruct (minmax_on_subset values subset !! k) eqn:E.
  - by eapply minmax_on_subset_bounds.
  - lra.
Qed.

(* ------------------------------------------------------------------ *)
(** ** C10: degenerate min-max normalisation *)

(** C10. When the maximum raw value over the candidate set is at most the
    minimum (in particular when all candidates, or the single candidate,
    have the same raw value), [_minmax_on_subset] maps every candidate to
    0, so a structural component weighted by [delta] adds 0 to its score. *)
Theorem minmax_degenerate_zero (values : gmap string Q) (subset : list string)
  (x : Q) (rest : list Q) (delta : Q) :
  map (fun k => dict_get values k 0) subset = x :: rest ->
  py_max_from x rest <= py_min_from x rest ->
  forall k, k ∈ subset ->
    minmax_on_subset values subset !! k = Some 0
    /\ delta * dict_get (minmax_on_subset values subset) k 0 == 0.
Proof.
  intros Hsub Hle k Hk.
  assert (Hz : minmax_on_subset values subset !! k = Some 0).
  { unfold minmax_on_subset. cbv zeta. rewrite Hsub.
    apply Qle_bool_iff in Hle. rewrite Hle.
    rewrite dict_from_keys_lookup. by rewrite bool_decide_true. }
  split; [exact Hz|]. unfold dict_get. rewrite Hz. ring.
Qed.

Lemma minmax_degenerate_zero_witness :
  let values : gmap string Q := <["b" := 5]> (<["a" := 5]> ∅) in
  map (fun k => dict_get values k 0) ["a"; "b"] = 5 :: [5]
  /\ py_max_from 5 [5] <= py_min_from 5 [5]
  /\ minmax_on_subset values ["a"; "b"] !! "a" = Some 0
  /\ (14#100) * dict_get (minmax_on_subset values ["a"; "b"]) "a" 0 == 0.
Proof.
  cbv zeta. split; [reflexivity|]. split; [vm_compute; discriminate|].
  apply (minmax_degenerate_zero (<["b" := 5]> (<["a" := 5]> ∅)) ["a"; "b"] 5 [5] (14#100)).
  - reflexivity.
  - vm_compute. discriminate.
  - set_solver.
Defined.

(* ------------------------------------------------------------------ *)
(** ** C8: fuzzy company expansion *)

Lemma elem_of_filter_elements (P : string -> bool) (U : gset string) (u : string) :
  u ∈ (list_to_set (List.filter P (elements U)) : gset string) <-> u ∈ U /\ P u = true.
Proof.
  rewrite elem_of_list_to_set, list_elem_of_In, List.filter_In, <- list_elem_of_In.
  by rewrite elem_of_elements.
Qed.

Lemma fuzzy_step_spec (U out : gset string) (t0 u : string) :
  u ∈ fuzzy_step U out t0 <->
  u ∈ out \/
  (let t := str_strip (str_lower t0) in
   t <> "" /\ u ∈ U /\
   ((t ∈ U /\ u = t)
    \/ ((t ∉ U) /\ (exists u', u' ∈ U /\ prefix_either t u' = true) /\ prefix_either t u = true)
    \/ ((t ∉ U) /\ ~ (exists u', u' ∈ U /\ prefix_either t u' = true) /\ lev_close t u = true))).
Proof.
  unfold fuzzy_step. cbv zeta. set (t := str_strip (str_lower t0)).
  destruct (String.eqb_spec t "") as [Ht|Ht].
  - split; [by left|]. intros [H|[H _]]; [done|congruence].
  - case_bool_decide as HtU.
    + rewrite elem_of_union, elem_of_singleton. split.
      * intros [->|H]; [right; repeat split; auto|by left].
      * intros [H|(_ & _ & [[_ ->]|[[Hn _]|[Hn _]]])]; [by right|by left|done|done].
    + destruct (List.filter (prefix_either t) (elements U)) as [|u0 sw] eqn:Hsw.
      * rewrite elem_of_union, elem_of_filter_elements.
        assert (Hno : ~ (exists u', u' ∈ U /\ prefix_either t u' = true)).
        { intros (u' & Hu' & Hp).
          assert (Hin : In u' (List.filter (prefix_either t) (elements U))).
          { apply List.filter_In. split; [|exact Hp].
            apply list_elem_of_In. by apply elem_of_elements. }
          rewrite Hsw in Hin. done. }
        split.
        -- intros [[HU Hl]|H]; [|by left]. right. repeat split; auto.
        -- intros [H|(_ & HU & [[Hc _]|[[_ [Hc _]]|[_ [_ Hl]]]])];
             [by right|done|done|by left].
      * rewrite <- Hsw. rewrite elem_of_union, elem_of_filter_elements.
        assert (Hyes : exists u', u' ∈ U /\ prefix_either t u' = true).
        { exists u0. assert (Hin : In u0 (List.filter (prefix_either t) (elements U))).
          { rewrite Hsw. by left. }
          apply List.filter_In in Hin as [Hin Hp]. split; [|exact Hp].
          apply elem_of_elements. by apply list_elem_of_In. }
        split.
        -- intros [[HU Hp]|H]; [|by left]. right. repeat split; auto.
        -- intros [H|(_ & HU & [[Hc _]|[[_ [_ Hp]]|[_ [Hc _]]]])];
             [by right|done|by left|done].
Qed.

Lemma fuzzy_fold_spec (U : gset string) (ts : list string) (out : gset string) (u : string) :
  u ∈ fold_left (fuzzy_step U) ts out <->
  u ∈ out \/
  exists t0, In t0 ts /\
   (let t := str_strip (str_lower t0) in
    t <> "" /\ u ∈ U /\
    ((t ∈ U /\ u = t)
     \/ ((t ∉ U) /\ (exists u', u' ∈ U /\ prefix_either t u' = true) /\ prefix_either t u = true)
     \/ ((t ∉ U) /\ ~ (exists u', u' ∈ U /\ prefix_either t u' = true) /\ lev_close t u = true))).
Proof.
  revert out. induction ts as [|t0 ts IH]; intros out; cbn [fold_left].
  - split; [by left|]. intros [H|(? & [] & _)]. done.
  - rewrite IH, fuzzy_step_spec. split.
    + intros [[H|H]|(t1 & Hin & H)].
      * by left.
      * right. exists t0. split; [by left|exact H].
      * right. exists t1. split; [by right|exact H].
    + intros [H|(t1 & [<-|Hin] & H)].
      * by left; left.
      * by left; right.
      * right. exists t1. by split.
Qed.

(** C8 (as stated: false). The universe entry "googleplex" has the target
    "google" as a prefix, yet it is not returned, because the exact match
    of "google" ends the search for that target. *)
Lemma fuzzy_normalize_companies_not_union :
  String.prefix "google" "googleplex" = true
  /\ In "googleplex" ["google"; "googleplex"]
  /\ "googleplex" ∉ fuzzy_normalize_companies ["google"] ["google"; "googleplex"].
Proof.
  split; [reflexivity|]. split; [right; left; reflexivity|].
  apply (bool_decide_eq_false _). vm_compute. reflexivity.
Qed.

(** C8 (amended). [_fuzzy_normalize_companies] returns the union over the
    targets [t0] (lower-cased and stripped to [t], empty [t] skipped) of:
    [{t}] if [t] is a (lower-cased) universe entry; otherwise the entries
    [u] with [u] a prefix of [t] or [t] a prefix of [u], if there is any;
    otherwise the entries within Levenshtein distance 2 (both lengths at
    most 8) or 3 (longer), length difference at most 3. *)
Theorem fuzzy_normalize_companies_cascade (targets universe : list string) (u : string) :
  let U : gset string := list_to_set (map str_lower universe) in
  u ∈ fuzzy_normalize_companies targets universe <->
  exists t0, In t0 targets /\
   (let t := str_strip (str_lower t0) in
    t <> "" /\ u ∈ U /\
    ((t ∈ U /\ u = t)
     \/ ((t ∉ U) /\ (exists u', u' ∈ U /\ prefix_either t u' = true) /\ prefix_either t u = true)
     \/ ((t ∉ U) /\ ~ (exists u', u' ∈ U /\ prefix_either t u' = true) /\ lev_close t u = true))).
Proof.
  cbv zeta. unfold fuzzy_normalize_companies. cbv zeta.
  rewrite fuzzy_fold_spec. split.
  - intros [H|H]; [set_solver|exact H].
  - intros H. by right.
Qed.

(* ------------------------------------------------------------------ *)
(** ** C4: the candidate set *)

Lemma str_mem_In (x : string) (l : list string) : str_mem x l = true <-> In x l.
Proof.
  unfold str_mem. rewrite existsb_exists. split.
  - intros (y & Hy & E). apply String.eqb_eq in E. by subst.
  - intros H. exists x. split; [done|apply String.eqb_refl].
Qed.

Lemma skill_cond_spec (l : list string) (p : Person) :
  skill_cond l p = true <-> exists s, In s (p_skills p) /\ In (str_lower s) l.
Proof.
  unfold skill_cond. rewrite existsb_exists. by setoid_rewrite str_mem_In.
Qed.

Lemma job_cond_spec (l : list string) (p : Person) :
  job_cond l p = true <-> exists t, In t (p_jobTitleCanonTokens p) /\ In t l.
Proof.
  unfold job_cond. rewrite existsb_exists. by setoid_rewrite str_mem_In.
Qed.

Lemma company_cond_spec (schema : bool) (l : list string) (p : Person) :
  company_cond schema l p = true <-> exists c, In c (cand_company_list schema p) /\ In c l.
Proof.
  unfold company_cond. rewrite existsb_exists. by setoid_rewrite str_mem_In.
Qed.

Lemma In_remove_dups {A} `{EqDecision A} (x : A) (l : list A) :
  In x (remove_dups l) <-> In x l.
Proof. rewrite <- !list_elem_of_In. apply elem_of_remove_dups. Qed.

Lemma In_map_id_filter (w : Person -> bool) (rows : list Person) (x : string) :
  In x (map p_id (List.filter w rows)) <-> exists p, In p rows /\ p_id p = x /\ w p = true.
Proof.
  rewrite in_map_iff. split.
  - intros (p & <- & Hp). apply List.filter_In in Hp as [Hp Hw]. eauto.
  - intros (p & Hp & <- & Hw). exists p. split; [done|]. by apply List.filter_In.
Qed.

(** C4. With [prefilter=True] the candidates are the [KNOWS] neighbours of
    [me]: all of them when the three goal lists are empty; with goal
    job tokens and goal companies but no goal skills, those having a
    canonical job token among the goal tokens AND a company among the goal
    companies; otherwise those satisfying the OR over the non-empty goal
    dimensions (a skill among the goal skills, compared lower-case; a
    canonical job token among the goal tokens; a company among the goal
    companies). *)
Theorem fetch_candidate_connections_prefilter (g : Graph) (schema : bool) (me : string)
  (gs gj gc : list string) (x : string) :
  let SKILL p := exists s, In s (p_skills p) /\ In (str_lower s) (map str_lower gs) in
  let JOB p := exists t, In t (p_jobTitleCanonTokens p) /\ In t gj in
  let COMP p := exists c, In c (cand_company_list schema p) /\ In c (map str_lower gc) in
  In x (fetch_candidate_connections g schema me (Some gs) (Some gj) (Some gc)) <->
  exists p, In p (knows_neighbors g me) /\ p_id p = x /\
    ((gs = [] /\ gj = [] /\ gc = [])
     \/ (gs = [] /\ gj <> [] /\ gc <> [] /\ JOB p /\ COMP p)
     \/ (~ (gs = [] /\ gj <> [] /\ gc <> [])
         /\ ((gs <> [] /\ SKILL p) \/ (gj <> [] /\ JOB p) \/ (gc <> [] /\ COMP p)))).
Proof.
  cbv zeta. unfold fetch_candidate_connections. cbv zeta.
  assert (Hrows : forall p, In p (if schema then remove_dups (knows_neighbors g me)
                                  else knows_neighbors g me) <-> In p (knows_neighbors g me)).
  { intros p. destruct schema; [apply In_remove_dups|done]. }
  destruct gs as [|s gs]; destruct gj as [|j gj]; destruct gc as [|c gc];
    cbn [py_truthy_list negb orb andb list_or_empty].
  1: { rewrite In_remove_dups, in_map_iff. split.
       - intros (p & <- & Hp). exists p. naive_solver.
       - intros (p & Hp & <- & _). eauto. }
  all: rewrite In_map_id_filter; split;
      [ intros (p & Hp & Hid & Hw); exists p; rewrite Hrows in Hp;
        rewrite ?andb_true_iff, ?orb_true_iff, ?skill_cond_spec, ?job_cond_spec,
          ?company_cond_spec in Hw
      | intros (p & Hp & Hid & Hc); exists p; rewrite Hrows;
        rewrite ?andb_true_iff, ?orb_true_iff, ?skill_cond_spec, ?job_cond_spec,
          ?company_cond_spec ];
      naive_solver.
Qed.

(* ------------------------------------------------------------------ *)
(** ** C5: the explain endpoint *)

(** The query of the explain scenario parses to the expected goals. *)
Lemma parse_query_explain_example :
  parse_query "software engineers with python" ["python"] = (["python"], ["engineer"; "software"]).
Proof. vm_compute. reflexivity. Qed.

(** C5 (code defect). [rank_connections_explain] calls
    [_fetch_candidate_connections] with four arguments while it requires
    five ([goal_companies] has no default): every request raises
    [TypeError] and is answered with status 500, whatever the graph and
    the request. *)
Theorem rank_connections_explain_type_error (g : Graph) (schema : bool)
  (req : RankConnectionsExplainRequest) :
  rank_connections_explain g schema req = HTTP500 TypeError.
Proof.
  unfold rank_connections_explain.
  destruct (parse_query (ex_query req) (fetch_all_skills g)) as [gs gj].
  reflexivity.
Qed.

(* ------------------------------------------------------------------ *)
(** ** C9: weight arity *)

Lemma rank_my_connections_error_is_unpack (ws : list Q) candidate_ids matches feats ego_raw
  gs gj gc cc top_k rescale_top (e : PyError) :
  rank_my_connections ws candidate_ids matches feats ego_raw gs gj gc cc top_k rescale_top = inl e
  <-> unpack_weights ws = inl e.
Proof.
  unfold rank_my_connections. destruct (unpack_weights ws) as [e'|w]; [split; intros H; inversion H; reflexivity|].
  split; [|discriminate]. destruct candidate_ids; [discriminate|].
  case_bool_decide; discriminate.
Qed.

(** C9. [rank_my_connections] fails (with [ValueError], and only with it)
    exactly when the weights list has a length other than 5 or 6; with
    five weights the company weight is 0, so the final score of every
    candidate is the five-term weighted sum and does not depend on
    [company_match]; the batch endpoint always passes five weights. *)
Theorem rank_my_connections_weights_arity (ws : list Q) candidate_ids matches feats ego_raw
  gs gj gc cc top_k rescale_top :
  ((exists e, rank_my_connections ws candidate_ids matches feats ego_raw gs gj gc cc top_k
                rescale_top = inl e)
     <-> (List.length ws <> 5 /\ List.length ws <> 6)%nat)
  /\ (forall e, rank_my_connections ws candidate_ids matches feats ego_raw gs gj gc cc top_k
                  rescale_top = inl e -> e = ValueError)
  /\ (List.length ws = 5%nat ->
      exists a b g d e, unpack_weights ws = inr (a, b, g, d, e, 0)
        /\ forall c : Components,
             final_score (a, b, g, d, e, 0) c
             == a * vec_sim c + b * skill_match c + g * job_match c
                + d * struct_global c + e * struct_ego c)
  /\ (forall req, List.length (batch_weights req) = 5%nat).
Proof.
  setoid_rewrite rank_my_connections_error_is_unpack.
  split; [|split; [|split]].
  - destruct ws as [|a [|b [|g [|d [|e [|z [|y ws]]]]]]]; cbn;
      (split; [intros [e' He]; try discriminate; lia
              |intros H; try (exists ValueError; reflexivity); lia]).
  - intros e. destruct ws as [|a [|b [|g [|d [|e' [|z [|y ws]]]]]]]; cbn;
      intros H; inversion H; done.
  - intros Hlen. destruct ws as [|a [|b [|g [|d [|e [|z ws]]]]]]; cbn in Hlen; try lia.
    exists a, b, g, d, e. split; [reflexivity|]. intros c. cbn. ring.
  - intros req. reflexivity.
Qed.

Lemma rank_my_connections_weights_arity_witness :
  (List.length [1; 0; 0; 0; 0] = 5%nat) /\
  exists a b g d e, unpack_weights [1; 0; 0; 0; 0] = inr (a, b, g, d, e, 0).
Proof.
  split; [reflexivity|].
  destruct (rank_my_connections_weights_arity [1; 0; 0; 0; 0] [] [] ∅ ∅ [] [] [] ∅ 0%Z None)
    as (_ & _ & H5 & _).
  destruct (H5 eq_refl) as (a & b & g & d & e & Hu & _).
  exists a, b, g, d, e. exact Hu.
Defined.

(* ------------------------------------------------------------------ *)
(** ** C3: the rescale step and ordering *)

Lemma round_half_even_bounds (q : Q) :
  (Qfloor q <= round_half_even q <= Qfloor q + 1)%Z.
Proof.
  unfold round_half_even. cbv zeta.
  destruct (Qcompare _ _); [destruct (Z.even _)| |]; lia.
Qed.

Lemma round_half_even_mono (x y : Q) : x <= y -> (round_half_even x <= round_half_even y)%Z.
Proof.
  intros Hxy. pose proof (Qfloor_resp_le x y Hxy) as Hf.
  pose proof (round_half_even_bounds x) as Bx. pose proof (round_half_even_bounds y) as By.
  destruct (Z.lt_ge_cases (Qfloor x) (Qfloor y)) as [Hlt|Hge]; [lia|].
  assert (Heq : Qfloor x = Qfloor y) by lia.
  unfold round_half_even. cbv zeta. rewrite Heq. set (f := Qfloor y).
  assert (Hr : x - inject_Z f <= y - inject_Z f) by lra.
  destruct (Qcompare (x - inject_Z f) (1#2)) eqn:Cx;
    destruct (Qcompare (y - inject_Z f) (1#2)) eqn:Cy;
    repeat match goal with
           | H : (_ ?= _) = Eq |- _ => apply Qeq_alt in H
           | H : (_ ?= _) = Lt |- _ => apply Qlt_alt in H
           | H : (_ ?= _) = Gt |- _ => apply Qgt_alt in H
           end;
    try (destruct (Z.even f)); try lia; exfalso; lra.
Qed.

Lemma round6_mono (x y : Q) : x <= y -> round6 x <= round6 y.
Proof.
  intros Hxy. unfold round6.
  assert (H : x * inject_Z 1000000 <= y * inject_Z 1000000).
  { apply Qmult_le_compat_r; [exact Hxy|]. unfold Qle. simpl. lia. }
  apply round_half_even_mono in H. unfold Qle. simpl. lia.
Qed.

Lemma scale_mono (x y m t : Q) : 0 < m -> 0 < t -> x <= y -> x / m * t <= y / m * t.
Proof.
  intros Hm Ht Hxy. apply Qmult_le_compat_r; [|lra].
  unfold Qdiv. apply Qmult_le_compat_r; [exact Hxy|].
  apply Qlt_le_weak. by apply Qinv_lt_0_compat.
Qed.

(** C3 (amended). For a positive [rescale_top] the rescale step is
    monotone: if [score(q) <= score(p)] before it, then also after it
    (equivalently, a strict order after the step was strict before). *)
Theorem rescale_monotone (t : Q) (scored : list RankedPerson) (i j : nat)
  (p q p' q' : RankedPerson) :
  0 < t ->
  nth_error scored i = Some p -> nth_error scored j = Some q ->
  nth_error (rescale (Some t) scored) i = Some p' ->
  nth_error (rescale (Some t) scored) j = Some q' ->
  rp_score q <= rp_score p -> rp_score q' <= rp_score p'.
Proof.
  intros Ht Hp Hq Hp' Hq' Hle.
  destruct scored as [|r0 rest]; [destruct i; discriminate|].
  unfold rescale in Hp', Hq'.
  assert (Htr : py_truthy_float (Some t) = true).
  { unfold py_truthy_float. destruct (Qeq_bool t 0) eqn:E; [|done].
    apply Qeq_bool_iff in E. lra. }
  rewrite Htr in Hp', Hq'.
  set (m := if Qeq_bool (py_max_from (rp_score r0) (map rp_score rest)) 0 then 1
            else py_max_from (rp_score r0) (map rp_score rest)) in Hp', Hq'.
  destruct (Qlt_le_dec 0 m) as [Hm|Hm].
  - rewrite nth_error_map, Hp in Hp'. rewrite nth_error_map, Hq in Hq'.
    injection Hp' as <-. injection Hq' as <-. cbn.
    apply round6_mono, scale_mono; assumption.
  - rewrite Hp in Hp'. rewrite Hq in Hq'. injection Hp' as <-. injection Hq' as <-.
    exact Hle.
Qed.

Lemma rescale_monotone_witness :
  let r (s : Q) : RankedPerson :=
    {| rp_id := "x"; rp_name := "x"; rp_title := ""; rp_score := s;
       rp_components := {| vec_sim := s; skill_match := 0; job_match := 0;
                           struct_global := 0; struct_ego := 0; company_match := 0 |} |} in
  0 < 8#10 /\ rp_score (r (1#2)) <= rp_score (r 1) /\
  (forall p' q', nth_error (rescale (Some (8#10)) [r 1; r (1#2)]) 0 = Some p' ->
                 nth_error (rescale (Some (8#10)) [r 1; r (1#2)]) 1 = Some q' ->
                 rp_score q' <= rp_score p').
Proof.
  cbv zeta. split; [vm_compute; reflexivity|]. split; [vm_compute; discriminate|].
  intros p' q' Hp' Hq'.
  match type of Hp' with
  | nth_error (rescale _ (?a :: ?b :: nil)) _ = _ =>
      apply (rescale_monotone (8#10) [a; b] 0 1 a b p' q');
      [vm_compute; reflexivity|reflexivity|reflexivity
      |exact Hp'|exact Hq'|vm_compute; discriminate]
  end.
Defined.

(** C3 (as stated: false). Scores [1], [0.000002], [0.000003] (vector
    similarity only, [rescale_top = 0.8]) become [0.8], [0.000002],
    [0.000002]: the third candidate ranked strictly above the second
    before the rescale, after it the second is at least the third. *)
Lemma rescale_not_order_reflecting :
  let F : PersonFeatures :=
    {| f_skills := []; f_job_tokens := []; f_bp_skills := 0; f_bp_job := 0;
       f_name := ""; f_title := "" |} in
  let feats : gmap string PersonFeatures := <["c" := F]> (<["b" := F]> (<["a" := F]> ∅)) in
  let scored := rank_scored (1, 0, 0, 0, 0, 0) ["a"; "b"; "c"]
                  [("a", 1); ("b", 2#1000000); ("c", 3#1000000)] feats ∅ [] [] [] ∅ in
  let after := rescale (Some (8#10)) scored in
  ~ (forall i j p q p' q',
       nth_error scored i = Some p -> nth_error scored j = Some q ->
       nth_error after i = Some p' -> nth_error after j = Some q' ->
       (rp_score q <= rp_score p <-> rp_score q' <= rp_score p')).
Proof.
  cbv zeta. intros H.
  match type of H with
  | context [rescale ?t ?l] =>
      remember (rescale t l) as after eqn:Ea; vm_compute in Ea;
      remember l as scored eqn:Es; vm_compute in Es; subst after scored
  end.
  specialize (H 1%nat 2%nat). cbn [nth_error] in H.
  edestruct H as [_ Hb]; [reflexivity..|].
  assert (X := Hb ltac:(vm_compute; discriminate)).
  vm_compute in X. exact (X eq_refl).
Qed.

(* ------------------------------------------------------------------ *)
(** ** C6: ranges of the score components *)

Lemma fold_left_invariant {A B} (P : A -> Prop) (f : A -> B -> A) (l : list B) (a : A) :
  P a -> (forall a b, In b l -> P a -> P (f a b)) -> P (fold_left f l a).
Proof.
  revert a. induction l as [|b l IH]; intros a Ha Hstep; simpl; [done|].
  apply IH.
  - apply Hstep; [left; reflexivity|done].
  - intros a' b' Hb'. apply Hstep. right. exact Hb'.
Qed.

Lemma frac_bounds (i u : Z) : (0 <= i)%Z -> (i <= u)%Z -> (0 < u)%Z ->
  0 <= inject_Z i / inject_Z u <= 1.
Proof.
  intros H0 H1 H2.
  assert (Hu : 0 < inject_Z u) by (unfold Qlt; simpl; lia).
  assert (Hi : 0 <= inject_Z i) by (unfold Qle; simpl; lia).
  assert (Hiu : inject_Z i <= inject_Z u) by (unfold Qle; simpl; lia).
  split.
  - apply Qle_shift_div_l; [exact Hu|]. lra.
  - apply Qle_shift_div_r; [exact Hu|]. lra.
Qed.

Lemma jaccard_bounds (a b : gset string) : 0 <= jaccard a b <= 1.
Proof.
  unfold jaccard. destruct (bool_decide (a = ∅) && bool_decide (b = ∅)); [lra|]. cbv zeta.
  destruct (size (a ∪ b) =? 0)%nat eqn:Hu; [lra|].
  apply Nat.eqb_neq in Hu.
  assert (Hs : (size (a ∩ b) <= size (a ∪ b))%nat) by (apply subseteq_size; set_solver).
  apply frac_bounds; lia.
Qed.

Lemma pinecone_similarity_lookup (matches : list (string * Q)) (allowed : option (list string))
  (k : string) (v : Q) :
  pinecone_similarity matches allowed !! k = Some v -> In (k, v) matches.
Proof.
  unfold pinecone_similarity. revert k v.
  apply (fold_left_invariant (fun m => forall k v, m !! k = Some v -> In (k, v) matches)).
  - intros k v H. by rewrite lookup_empty in H.
  - intros m [k' v'] Hin IH k v.
    assert (Hins : <[k' := v']> m !! k = Some v -> In (k, v) matches).
    { destruct (decide (k' = k)) as [<-|Hne].
      - rewrite lookup_insert_eq. intros [= <-]. exact Hin.
      - rewrite lookup_insert_ne by done. apply IH. }
    simpl. destruct allowed as [al|]; [destruct (str_mem k' al)|]; auto.
Qed.

Lemma setdefault_all_lookup (d : gmap string Q) (ks : list string) (k : string) (v : Q) :
  setdefault_all d ks !! k = Some v -> d !! k = Some v \/ v = 0.
Proof.
  unfold setdefault_all. revert k v.
  apply (fold_left_invariant (fun m => forall k v, m !! k = Some v -> d !! k = Some v \/ v = 0)).
  - intros k v H. left. exact H.
  - intros m k' _ IH k v. destruct (m !! k') eqn:E; [apply IH|].
    destruct (decide (k' = k)) as [<-|Hne].
    + rewrite lookup_insert_eq. intros [= <-]. right. reflexivity.
    + rewrite lookup_insert_ne by done. apply IH.
Qed.

Lemma rank_scored_components (w : Weights) (cids : list string) (matches : list (string * Q))
  (feats : gmap string PersonFeatures) (ego : gmap string Q) (gs gj gc : list string)
  (cc : gmap string (gset string)) (r : RankedPerson) :
  In r (rank_scored w cids matches feats ego gs gj gc cc) ->
  (vec_sim (rp_components r) = 0 \/ In (rp_id r, vec_sim (rp_components r)) matches) /\
  0 <= skill_match (rp_components r) <= 1 /\ 0 <= job_match (rp_components r) <= 1 /\
  0 <= struct_global (rp_components r) <= 1 /\ 0 <= struct_ego (rp_components r) <= 1 /\
  0 <= company_match (rp_components r) <= 1.
Proof.
  unfold rank_scored. cbv zeta. intros Hin.
  apply in_flat_map in Hin as (pid & _ & Hr).
  destruct (feats !! pid) as [f|] eqn:Ef; [|destruct Hr].
  destruct Hr as [<-|[]]. cbn [rp_components rp_id].
  cbn [vec_sim skill_match job_match struct_global struct_ego company_match].
  split; [|split; [|split; [|split; [|split]]]].
  - unfold dict_get.
    destruct (setdefault_all _ cids !! pid) as [v|] eqn:E; [|left; reflexivity].
    apply setdefault_all_lookup in E as [E| ->]; [|left; reflexivity].
    right. by eapply pinecone_similarity_lookup.
  - unfold dict_get. rewrite lookup_fmap, Ef. apply jaccard_bounds.
  - unfold dict_get. rewrite lookup_fmap, Ef. apply jaccard_bounds.
  - apply dict_get_minmax_bounds.
  - apply dict_get_minmax_bounds.
  - unfold dict_get. rewrite map_lookup_imap, Ef. simpl.
    case_bool_decide; [lra|apply jaccard_bounds].
Qed.

Lemma In_rescale (t : option Q) (l : list RankedPerson) (r : RankedPerson) :
  In r (rescale t l) ->
  exists r0, In r0 l /\ rp_id r = rp_id r0 /\ rp_components r = rp_components r0.
Proof.
  intros Hin. unfold rescale in Hin.
  destruct t as [t|]; [|exists r; auto].
  destruct l as [|r0 rest]; [exists r; auto|].
  destruct (py_truthy_float _); [|exists r; auto]. cbv zeta in Hin.
  destruct (Qlt_le_dec _ _); [|exists r; auto].
  apply in_map_iff in Hin as (x & <- & Hx). exists x. auto.
Qed.

Lemma In_insert_desc (x r : RankedPerson) (l : list RankedPerson) :
  In r (insert_desc x l) -> r = x \/ In r l.
Proof.
  induction l as [|y l IH]; simpl; [intuition|].
  destruct (Qlt_le_dec (rp_score y) (rp_score x)); simpl; [intuition|].
  intros [<-|H]; [auto|]. destruct (IH H); auto.
Qed.

Lemma In_sort_desc_fold (l acc : list RankedPerson) (r : RankedPerson) :
  In r (fold_left (fun acc x => insert_desc x acc) l acc) -> In r acc \/ In r l.
Proof.
  revert acc. induction l as [|x l IH]; intros acc; simpl; [auto|].
  intros H. destruct (IH _ H) as [H'|H']; [|auto].
  destruct (In_insert_desc _ _ _ H'); auto.
Qed.

Lemma In_sort_desc (l : list RankedPerson) (r : RankedPerson) :
  In r (sort_desc l) -> In r l.
Proof.
  unfold sort_desc. intros H. destruct (In_sort_desc_fold l [] r H) as [[]|H']. exact H'.
Qed.

Lemma In_firstn_l {A} (n : nat) (l : list A) (x : A) : In x (firstn n l) -> In x l.
Proof.
  revert l. induction n as [|n IH]; intros [|y l]; simpl; try tauto.
  intros [->|H]; [left; reflexivity|right; apply IH, H].
Qed.

Lemma In_py_slice_to {A} (l : list A) (n : Z) (x : A) : In x (py_slice_to l n) -> In x l.
Proof. unfold py_slice_to. destruct (0 <=? n)%Z; apply In_firstn_l. Qed.

(** C6 (amended). For every [RankedPerson] returned by
    [rank_my_connections], [skill_match], [job_match], [struct_global],
    [struct_ego] and [company_match] lie in [0, 1]; [vec_sim] is either 0
    or a score the vector store returned for that id, so it lies in
    [0, 1] whenever every score of the vector-store answer does. *)
Theorem rank_my_connections_components (ws : list Q) (cids : list string)
  (matches : list (string * Q)) (feats : gmap string PersonFeatures) (ego : gmap string Q)
  (gs gj gc : list string) (cc : gmap string (gset string)) (top_k : Z)
  (rescale_top : option Q) (out : list RankedPerson) (r : RankedPerson) :
  rank_my_connections ws cids matches feats ego gs gj gc cc top_k rescale_top = inr out ->
  In r out ->
  0 <= skill_match (rp_components r) <= 1 /\ 0 <= job_match (rp_components r) <= 1 /\
  0 <= struct_global (rp_components r) <= 1 /\ 0 <= struct_ego (rp_components r) <= 1 /\
  0 <= company_match (rp_components r) <= 1 /\
  (vec_sim (rp_components r) = 0 \/ In (rp_id r, vec_sim (rp_components r)) matches) /\
  ((forall m, In m matches -> 0 <= snd m <= 1) -> 0 <= vec_sim (rp_components r) <= 1).
Proof.
  unfold rank_my_connections.
  destruct (unpack_weights ws) as [e|w]; [discriminate|].
  destruct cids as [|cid cids']; [intros [= <-] []|].
  destruct (bool_decide (feats = ∅)); [intros [= <-] []|].
  intros [= <-] Hin.
  apply In_py_slice_to, In_sort_desc, In_rescale in Hin as (r0 & Hr0 & Hid & Hc).
  rewrite Hid, Hc.
  apply rank_scored_components in Hr0 as (Hv & Hs & Hj & Hg & He & Hco).
  split; [exact Hs|]. split; [exact Hj|]. split; [exact Hg|]. split; [exact He|].
  split; [exact Hco|]. split; [exact Hv|].
  intros Hm. destruct Hv as [->|Hv]; [lra|]. exact (Hm _ Hv).
Qed.

Lemma rank_my_connections_components_witness :
  exists out r,
    rank_my_connections [1; 0; 0; 0; 0] ["a"] [("a", 1#2)]
      (<["a" := {| f_skills := ["python"]; f_job_tokens := ["engineer"]; f_bp_skills := 0;
                   f_bp_job := 0; f_name := "A"; f_title := "Engineer" |}]> ∅)
      ∅ ["python"] ["engineer"] [] ∅ 10 (Some (8#10)) = inr out /\
    In r out /\ 0 <= skill_match (rp_components r) <= 1.
Proof.
  match goal with
  | |- exists out r, ?e = inr out /\ _ =>
      destruct e as [err|out] eqn:E; pose proof E as E0; vm_compute in E0;
      [discriminate|injection E0 as E0; subst out]
  end.
  eexists. eexists. split; [exact E|]. split; [simpl; left; reflexivity|].
  exact (proj1 (rank_my_connections_components _ _ _ _ _ _ _ _ _ _ _ _ _ E
                  (or_introl eq_refl))).
Defined.

(** C6 (as stated: false). The vector store may return a negative
    (cosine) score; it is passed through unchanged as [vec_sim]. *)
Lemma rank_my_connections_negative_vec_sim :
  exists out r,
    rank_my_connections [1; 0; 0; 0; 0] ["a"] [("a", -(1#4))]
      (<["a" := {| f_skills := []; f_job_tokens := []; f_bp_skills := 0;
                   f_bp_job := 0; f_name := "A"; f_title := "" |}]> ∅)
      ∅ [] [] [] ∅ 10 (Some (8#10)) = inr out /\
    In r out /\ vec_sim (rp_components r) < 0.
Proof.
  eexists. eexists. split; [vm_compute; reflexivity|].
  split; [simpl; left; reflexivity|]. vm_compute. reflexivity.
Qed.

(* ------------------------------------------------------------------ *)
(** ** The metrics engine: what [run_metrics_generic] writes *)

Lemma get_props_update_eq (k : string) (f : Props -> Props) (st : gmap string Props) :
  get_props (update_props k f st) k = f (get_props st k).
Proof. unfold get_props at 1, update_props. by rewrite lookup_insert_eq. Qed.

Lemma get_props_update_ne (k k' : string) (f : Props -> Props) (st : gmap string Props) :
  k <> k' -> get_props (update_props k f st) k' = get_props st k'.
Proof. intros Hne. unfold get_props at 1, update_props. by rewrite lookup_insert_ne. Qed.

Lemma fold_insert_lookup_const {R V} (key : R -> string) (h : R -> V) (rows : list R)
  (m : gmap string V) (k : string) (v : V) :
  (forall r, In r rows -> key r = k -> h r = v) ->
  (m !! k = Some v \/ exists r, In r rows /\ key r = k) ->
  fold_left (fun m r => <[key r := h r]> m) rows m !! k = Some v.
Proof.
  revert m. induction rows as [|r rows IH]; intros m Hh Hex; simpl.
  - destruct Hex as [H|(r & [] & _)]. exact H.
  - apply IH; [intros r' Hr'; apply Hh; right; exact Hr'|].
    destruct (decide (key r = k)) as [Heq|Hne].
    + left. rewrite Heq, lookup_insert_eq. f_equal. apply Hh; [left; reflexivity|exact Heq].
    + destruct Hex as [H|(r' & [<-|Hr'] & Hk)].
      * left. by rewrite lookup_insert_ne.
      * contradiction.
      * right. eauto.
Qed.

Lemma fold_insert_lookup_none {R V} (key : R -> string) (h : R -> V) (rows : list R)
  (m : gmap string V) (k : string) :
  (forall r, In r rows -> key r <> k) ->
  fold_left (fun m r => <[key r := h r]> m) rows m !! k = m !! k.
Proof.
  revert m. induction rows as [|r rows IH]; intros m Hk; simpl; [reflexivity|].
  rewrite IH by (intros r' Hr'; apply Hk; right; exact Hr').
  rewrite lookup_insert_ne; [reflexivity|]. apply Hk. left. reflexivity.
Qed.

Lemma fold_update_kv_notin (G : string -> Q -> Props -> Props) (l : list (string * Q))
  (st : gmap string Props) (k : string) :
  k ∉ l.*1 ->
  get_props (fold_left (fun s kv => update_props kv.1 (G kv.1 kv.2) s) l st) k
  = get_props st k.
Proof.
  revert st. induction l as [|[k' c'] l IH]; intros st Hk; simpl; [reflexivity|].
  simpl in Hk. apply not_elem_of_cons in Hk as [Hne Hk].
  rewrite IH by exact Hk. apply get_props_update_ne. congruence.
Qed.

Lemma fold_update_kv_in (G : string -> Q -> Props -> Props) (l : list (string * Q))
  (st : gmap string Props) (k : string) (c : Q) :
  NoDup l.*1 -> (k, c) ∈ l ->
  get_props (fold_left (fun s kv => update_props kv.1 (G kv.1 kv.2) s) l st) k
  = G k c (get_props st k).
Proof.
  revert st. induction l as [|[k' c'] l IH]; intros st Hnd Hin; simpl.
  - by apply not_elem_of_nil in Hin.
  - simpl in Hnd. apply NoDup_cons in Hnd as [Hnotin Hnd].
    apply elem_of_cons in Hin as [Heq|Hin].
    + injection Heq as -> ->.
      rewrite fold_update_kv_notin by exact Hnotin. apply get_props_update_eq.
    + rewrite IH by assumption. f_equal. apply get_props_update_ne.
      intros ->. apply Hnotin. exact (list_elem_of_fmap_2 fst _ _ Hin).
Qed.

Lemma bridging_rows_spec (g : LayerGraph) (r : string * nat * list nat) :
  In r (bridging_rows g) ->
  r.1.2 = rel_degree (lg_rels g) r.1.1 /\ bridge_coeff r.1.2 r.2 = node_bridge_coeff g r.1.1.
Proof.
  unfold bridging_rows. intros Hin. apply in_map_iff in Hin as (p & <- & _). done.
Qed.

Lemma bridging_rows_key (g : LayerGraph) (p : string) :
  (exists r, In r (bridging_rows g) /\ r.1.1 = p)
  <-> In p (lg_persons g) /\ rel_neighbors (lg_rels g) p <> [].
Proof.
  unfold bridging_rows. split.
  - intros (r & Hin & <-). apply in_map_iff in Hin as (q & <- & Hq).
    apply filter_In in Hq as [Hq Hn]. simpl. split; [exact Hq|].
    intros He. rewrite He in Hn. done.
  - intros [Hp Hn].
    exists (p, rel_degree (lg_rels g) p, map (rel_degree (lg_rels g)) (rel_neighbors (lg_rels g) p)).
    split; [|reflexivity].
    apply in_map_iff. exists p. split; [reflexivity|].
    apply filter_In. split; [exact Hp|]. by rewrite bool_decide_false.
Qed.

Lemma inv_sum_nonneg (neigh : list nat) : 0 <= inv_sum neigh.
Proof.
  unfold inv_sum. apply (fold_left_invariant (fun s => 0 <= s)); [lra|].
  intros s d _ Hs. destruct (d =? 0)%nat eqn:Hd; [exact Hs|].
  apply Nat.eqb_neq in Hd.
  assert (H : 0 < 1 / inject_Z (Z.of_nat d)).
  { apply Qlt_shift_div_l; [unfold Qlt; simpl; lia|lra]. }
  lra.
Qed.

Lemma bridge_coeff_nonneg (deg : nat) (neigh : list nat) : 0 <= bridge_coeff deg neigh.
Proof.
  unfold bridge_coeff. destruct (_ && _) eqn:Hc; [|lra]. cbv zeta.
  destruct (Qlt_le_dec 0 (inv_sum neigh)) as [Hs|_]; [|lra].
  apply andb_prop in Hc as [Hd _]. apply Nat.ltb_lt in Hd.
  assert (H1 : 0 < 1 / inject_Z (Z.of_nat deg)).
  { apply Qlt_shift_div_l; [unfold Qlt; simpl; lia|lra]. }
  assert (H2 : 0 < 1 / inv_sum neigh) by (apply Qlt_shift_div_l; lra).
  apply Qlt_le_weak, Qmult_lt_0_compat; assumption.
Qed.

(** What one run writes for an id [k]: [pr2] are the properties after the
    Louvain and betweenness writes (untouched for an excluded id); the
    bridging pass then sets degree, coefficient and potential exactly for
    the persons of the layer with at least one neighbour. *)
Lemma run_metrics_generic_written (gds : Gds) (g : LayerGraph) (ex : list string)
  (st st' : gmap string Props) (k : string) :
  run_metrics_generic gds g ex st = inr st' ->
  exists pr2,
    (str_mem k ex = true -> pr2 = get_props st k) /\
    pr_bridgeCoeff pr2 = pr_bridgeCoeff (get_props st k) /\
    get_props st' k =
      if bool_decide (k ∈ lg_persons g) && negb (bool_decide (rel_neighbors (lg_rels g) k = []))
      then set_bridging (Z.of_nat (rel_degree (lg_rels g) k)) (node_bridge_coeff g k) pr2
      else pr2.
Proof.
  unfold run_metrics_generic. cbv zeta. destruct (_ && _); [discriminate|].
  intros [= <-].
  match goal with
  | |- context [fold_left _ (map_to_list ?B) ?S2] => set (st2 := S2); set (bridging := B)
  end.
  exists (get_props st2 k). split; [|split].
  - intros Hex. unfold st2.
    apply (fold_left_invariant (fun s => get_props s k = get_props st k)).
    + apply (fold_left_invariant (fun s => get_props s k = get_props st k)); [reflexivity|].
      intros s n Hn IH. rewrite get_props_update_ne; [exact IH|].
      apply filter_In in Hn as [_ Hn]. intros ->. rewrite Hex in Hn. discriminate.
    + intros s n Hn IH. rewrite get_props_update_ne; [exact IH|].
      apply filter_In in Hn as [_ Hn]. intros ->. rewrite Hex in Hn. discriminate.
  - unfold st2.
    apply (fold_left_invariant
             (fun s => pr_bridgeCoeff (get_props s k) = pr_bridgeCoeff (get_props st k))).
    + apply (fold_left_invariant
               (fun s => pr_bridgeCoeff (get_props s k) = pr_bridgeCoeff (get_props st k)));
        [reflexivity|].
      intros s n _ IH. destruct (decide (n = k)) as [->|Hne].
      * rewrite get_props_update_eq. exact IH.
      * rewrite get_props_update_ne by exact Hne. exact IH.
    + intros s n _ IH. destruct (decide (n = k)) as [->|Hne].
      * rewrite get_props_update_eq. exact IH.
      * rewrite get_props_update_ne by exact Hne. exact IH.
  - destruct (bool_decide (k ∈ lg_persons g) && negb (bool_decide (rel_neighbors (lg_rels g) k = [])))
      eqn:Hb.
    + apply andb_prop in Hb as [Hp Hn].
      apply bool_decide_eq_true, list_elem_of_In in Hp.
      apply negb_true_iff, bool_decide_eq_false in Hn.
      assert (Hbr : bridging !! k = Some (node_bridge_coeff g k)).
      { unfold bridging.
        apply (fold_insert_lookup_const (fun r => r.1.1) (fun r => bridge_coeff r.1.2 r.2)).
        - intros r Hr <-. apply bridging_rows_spec in Hr as [_ H]. exact H.
        - right. apply bridging_rows_key. split; assumption. }
      assert (Hdeg : fold_left (fun (m : gmap string nat) (r : string * nat * list nat) =>
                                  <[r.1.1 := r.1.2]> m) (bridging_rows g) ∅ !! k
                     = Some (rel_degree (lg_rels g) k)).
      { apply (fold_insert_lookup_const (fun r => r.1.1) (fun r => r.1.2)).
        - intros r Hr <-. apply bridging_rows_spec in Hr as [H _]. exact H.
        - right. apply bridging_rows_key. split; assumption. }
      etransitivity.
      { apply (fold_update_kv_in (fun k0 c => set_bridging
                 (match fold_left (fun (m : gmap string nat) (r : string * nat * list nat) =>
                                     <[r.1.1 := r.1.2]> m) (bridging_rows g) ∅ !! k0 with
                  | Some d => Z.of_nat d | None => 0%Z end) c) _ _ k (node_bridge_coeff g k)).
        - apply NoDup_fst_map_to_list.
        - apply elem_of_map_to_list. exact Hbr. }
      cbv beta. rewrite Hdeg. reflexivity.
    + assert (Hbr : bridging !! k = None).
      { unfold bridging.
        rewrite (fold_insert_lookup_none (fun r => r.1.1) (fun r => bridge_coeff r.1.2 r.2));
          [apply lookup_empty|].
        intros r Hr Hk.
        assert (Hex : exists r, In r (bridging_rows g) /\ r.1.1 = k) by eauto.
        apply bridging_rows_key in Hex as [Hp Hn].
        apply list_elem_of_In in Hp. rewrite bool_decide_true, bool_decide_false in Hb by done.
        discriminate. }
      apply (fold_update_kv_notin (fun k0 c => set_bridging
                 (match fold_left (fun (m : gmap string nat) (r : string * nat * list nat) =>
                                     <[r.1.1 := r.1.2]> m) (bridging_rows g) ∅ !! k0 with
                  | Some d => Z.of_nat d | None => 0%Z end) c)).
      intros Hin. apply list_elem_of_fmap_1 in Hin as ([k' c] & Hk & Hin). simpl in Hk. subst k'.
      apply elem_of_map_to_list in Hin. congruence.
Qed.

(* ------------------------------------------------------------------ *)
(** ** C1: the stored bridging coefficient *)

(** C1 (amended). After a successful run, every person of the layer with
    at least one neighbour stores [bridgeCoeff = node_bridge_coeff], which
    is non-negative (but not bounded by 1), and
    [bridgePotential = coalesce(betweenness, 0) * bridgeCoeff] with the
    stored betweenness. *)
Theorem run_metrics_bridge_coeff (gds : Gds) (g : LayerGraph) (ex : list string)
  (st st' : gmap string Props) (p : string) :
  run_metrics_generic gds g ex st = inr st' ->
  In p (lg_persons g) -> rel_neighbors (lg_rels g) p <> [] ->
  pr_bridgeCoeff (get_props st' p) = Some (node_bridge_coeff g p) /\
  0 <= node_bridge_coeff g p /\
  pr_bridgePotential (get_props st' p) =
    Some ((match pr_betweenness (get_props st' p) with Some b => b | None => 0 end)
          * node_bridge_coeff g p).
Proof.
  intros Hrun Hp Hn.
  destruct (run_metrics_generic_written _ _ _ _ _ p Hrun) as (pr2 & _ & _ & Hst).
  rewrite bool_decide_true, bool_decide_false in Hst
    by first [apply list_elem_of_In; exact Hp | exact Hn].
  rewrite Hst. cbn [andb negb pr_bridgeCoeff pr_bridgePotential pr_betweenness set_bridging].
  split; [reflexivity|]. split; [apply bridge_coeff_nonneg|reflexivity].
Qed.

Lemma run_metrics_bridge_coeff_witness :
  exists st',
    run_metrics_generic
      {| gds_louvain := fun _ _ _ => 0%Z; gds_betweenness := fun _ _ _ => 1;
         gds_validate_relationships := true |}
      {| lg_persons := ["h"; "a"; "b"]; lg_rels := [("h", "a"); ("h", "b")] |} [] ∅ = inr st' /\
    pr_bridgeCoeff (get_props st' "h")
    = Some (node_bridge_coeff {| lg_persons := ["h"; "a"; "b"];
                                 lg_rels := [("h", "a"); ("h", "b")] |} "h").
Proof.
  match goal with
  | |- exists st', ?e = inr st' /\ _ =>
      destruct e as [err|st'] eqn:E; pose proof E as E0; vm_compute in E0; [discriminate|]
  end.
  exists st'. split; [reflexivity|].
  refine (proj1 (run_metrics_bridge_coeff _ _ _ _ _ "h" E _ _)).
  - simpl. auto.
  - intros H. vm_compute in H. discriminate H.
Defined.

(** C1 (as stated: false). In the star [a - h - b] the leaf [a] has
    degree 1 and one neighbour of degree 2: its stored coefficient is
    [1 / (1/2) = 2 > 1]. *)
Lemma run_metrics_bridge_coeff_above_one :
  exists st' c,
    run_metrics_generic
      {| gds_louvain := fun _ _ _ => 0%Z; gds_betweenness := fun _ _ _ => 0;
         gds_validate_relationships := true |}
      {| lg_persons := ["h"; "a"; "b"]; lg_rels := [("h", "a"); ("h", "b")] |} [] ∅ = inr st' /\
    pr_bridgeCoeff (get_props st' "a") = Some c /\ 1 < c.
Proof.
  eexists. eexists. split; [vm_compute; reflexivity|].
  split; [vm_compute; reflexivity|]. vm_compute. reflexivity.
Qed.

(* ------------------------------------------------------------------ *)
(** ** C7: excluded persons *)

(** C7 (amended). Let [x] be in [exclude_ids] and the run succeed. The
    Louvain and betweenness writes skip [x], so its community and
    betweenness keep their previous values: nothing is zeroed. The
    bridging pass ignores the exclusion: if [x] is a person of the layer
    with at least one neighbour, it gets degree, coefficient and potential
    computed on the full layer graph. *)
Theorem run_metrics_excluded (gds : Gds) (g : LayerGraph) (ex : list string)
  (st st' : gmap string Props) (x : string) :
  run_metrics_generic gds g ex st = inr st' -> str_mem x ex = true ->
  pr_community (get_props st' x) = pr_community (get_props st x) /\
  pr_betweenness (get_props st' x) = pr_betweenness (get_props st x) /\
  (In x (lg_persons g) -> rel_neighbors (lg_rels g) x <> [] ->
     get_props st' x = set_bridging (Z.of_nat (rel_degree (lg_rels g) x))
                                    (node_bridge_coeff g x) (get_props st x)).
Proof.
  intros Hrun Hx.
  destruct (run_metrics_generic_written _ _ _ _ _ x Hrun) as (pr2 & Hpr2 & _ & Hst).
  specialize (Hpr2 Hx). subst pr2.
  assert (Hc : get_props st' x = get_props st x
               \/ get_props st' x = set_bridging (Z.of_nat (rel_degree (lg_rels g) x))
                                                 (node_bridge_coeff g x) (get_props st x)).
  { rewrite Hst. destruct (_ && _); auto. }
  split; [destruct Hc as [-> | ->]; reflexivity|].
  split; [destruct Hc as [-> | ->]; reflexivity|].
  intros Hp Hn. rewrite Hst, bool_decide_true, bool_decide_false
    by first [apply list_elem_of_In; exact Hp | exact Hn].
  reflexivity.
Qed.

Lemma run_metrics_excluded_witness :
  exists st',
    run_metrics_generic
      {| gds_louvain := fun _ _ _ => 0%Z; gds_betweenness := fun _ _ _ => 0;
         gds_validate_relationships := true |}
      {| lg_persons := ["x"; "a"; "b"]; lg_rels := [("a", "b")] |} ["x"] ∅ = inr st' /\
    str_mem "x" ["x"] = true /\
    pr_community (get_props st' "x") = pr_community (get_props ∅ "x").
Proof.
  match goal with
  | |- exists st', ?e = inr st' /\ _ =>
      destruct e as [err|st'] eqn:E; pose proof E as E0; vm_compute in E0; [discriminate|]
  end.
  exists st'. split; [reflexivity|]. split; [reflexivity|].
  exact (proj1 (run_metrics_excluded _ _ _ _ _ "x" E eq_refl)).
Defined.

(** C7 (as stated: false). A run excluding [x] (with relationship
    validation, the library's default) succeeds, and [x] keeps the
    community [7] and betweenness [1] of an earlier run: they are not
    zeroed. *)
Lemma run_metrics_excluded_not_zeroed :
  exists st',
    run_metrics_generic
      {| gds_louvain := fun _ _ _ => 0%Z; gds_betweenness := fun _ _ _ => 0;
         gds_validate_relationships := true |}
      {| lg_persons := ["x"; "a"; "b"]; lg_rels := [("a", "b")] |} ["x"]
      (<["x" := {| pr_community := Some 7%Z; pr_betweenness := Some 1;
                   pr_degree := None; pr_bridgeCoeff := None;
                   pr_bridgePotential := None |}]> ∅) = inr st' /\
    pr_community (get_props st' "x") = Some 7%Z /\
    pr_betweenness (get_props st' "x") = Some 1.
Proof.
  eexists. split; [vm_compute; reflexivity|]. split; vm_compute; reflexivity.
Qed.

(* ------------------------------------------------------------------ *)
(** ** C2: which pairs get a [SIMILAR] edge *)

Lemma fold_merge_is_Some {R} (key : R -> string * string) (F : R -> option Q -> Q)
  (rows : list R) (es : EdgeStore) (k : string * string) :
  is_Some (fold_left (fun m r => merge_edge (key r) (F r) m) rows es !! k)
  <-> is_Some (es !! k) \/ exists r, In r rows /\ key r = k.
Proof.
  revert es. induction rows as [|r rows IH]; intros es; simpl.
  - split; [auto|]. intros [H|(r & [] & _)]. exact H.
  - rewrite IH. unfold merge_edge, EdgeStore in *. destruct (decide (key r = k)) as [<-|Hne].
    + rewrite lookup_insert_eq. split; [intros _; right; exists r; auto|intros _; left; eauto].
    + rewrite lookup_insert_ne by exact Hne. split.
      * intros [H|(r' & Hr' & Hk)]; [auto|right; eauto].
      * intros [H|(r' & [<-|Hr'] & Hk)]; [auto|contradiction|right; eauto].
Qed.

Lemma In_person_pairs (ps : list SimPerson) (a b : SimPerson) :
  In (a, b) (person_pairs ps) <-> In a ps /\ In b ps /\ String.ltb (sp_id a) (sp_id b) = true.
Proof.
  unfold person_pairs. rewrite in_flat_map. split.
  - intros (a' & Ha' & Hin). apply in_flat_map in Hin as (b' & Hb' & Hin).
    destruct (String.ltb (sp_id a') (sp_id b')) eqn:E; [|destruct Hin].
    destruct Hin as [[= <- <-]|[]]. auto.
  - intros (Ha & Hb & E). exists a. split; [exact Ha|].
    apply in_flat_map. exists b. split; [exact Hb|]. rewrite E. left. reflexivity.
Qed.

Lemma In_NoDup_map_eq {A B} (f : A -> B) (l : list A) (x y : A) :
  NoDup (map f l) -> In x l -> In y l -> f x = f y -> x = y.
Proof.
  induction l as [|z l IH]; simpl; [tauto|].
  intros Hnd Hx Hy Hf. inversion Hnd as [|? ? Hz Hnd']. subst.
  destruct Hx as [<-|Hx]; destruct Hy as [<-|Hy]; auto.
  - exfalso. apply Hz. rewrite Hf. apply list_elem_of_In, in_map, Hy.
  - exfalso. apply Hz. rewrite <- Hf. apply list_elem_of_In, in_map, Hx.
Qed.

Lemma string_ltb_asym (x y : string) : String.ltb x y = true -> String.ltb y x = false.
Proof.
  unfold String.ltb. rewrite (String.compare_antisym y x).
  destruct (String.compare x y); simpl; congruence.
Qed.

Lemma In_base_rows (ps : list SimPerson) (min : Z) (wm : string) (k : string * string) :
  (exists r, In r (base_rows ps min wm) /\ r.1 = k) <->
  exists a b, In (a, b) (person_pairs ps) /\ k = (sp_id a, sp_id b) /\
    (0 < path_count (sp_skills a) (sp_skills b))%nat /\
    (min <= Z.of_nat (path_count (sp_skills a) (sp_skills b)))%Z.
Proof.
  unfold base_rows. split.
  - intros (r & Hr & <-). apply in_flat_map in Hr as ([a b] & Hab & Hr). cbv zeta in Hr.
    destruct (_ && _) eqn:Hc; [|destruct Hr].
    destruct Hr as [<-|[]]. apply andb_prop in Hc as [H1 H2].
    exists a, b. split; [exact Hab|]. split; [reflexivity|].
    split; [apply Nat.ltb_lt, H1|apply Z.leb_le, H2].
  - intros (a & b & Hab & -> & H1 & H2).
    exists ((sp_id a, sp_id b),
            if String.eqb wm "count" then inject_Z (Z.of_nat (path_count (sp_skills a) (sp_skills b)))
            else jaccard_weight a b).
    split; [|reflexivity].
    apply in_flat_map. exists (a, b). split; [exact Hab|]. cbv zeta. simpl.
    rewrite (proj2 (Nat.ltb_lt _ _) H1), (proj2 (Z.leb_le _ _) H2). left. reflexivity.
Qed.

Lemma In_boost_rows (ps : list SimPerson) (attr : SimPerson -> list string) (k : string * string) :
  In k (boost_rows ps attr) <->
  exists a b, In (a, b) (person_pairs ps) /\ k = (sp_id a, sp_id b) /\
    (0 < path_count (attr a) (attr b))%nat.
Proof.
  unfold boost_rows. rewrite in_flat_map. split.
  - intros ([a b] & Hab & Hk). simpl in Hk.
    destruct (path_count (attr a) (attr b)) as [|n] eqn:E; [destruct Hk|].
    apply repeat_spec in Hk. exists a, b. split; [exact Hab|]. split; [exact Hk|lia].
  - intros (a & b & Hab & -> & Hn). exists (a, b). split; [exact Hab|]. simpl.
    destruct (path_count (attr a) (attr b)); [lia|]. left. reflexivity.
Qed.

Lemma build_similar_edges_keys (ps : list SimPerson) (existing : EdgeStore) (min : Z)
  (wm : string) (bc bs : Q) (k : string * string) :
  is_Some (build_similar_edges ps existing min wm bc bs true !! k) <->
  (exists r, In r (base_rows ps min wm) /\ r.1 = k) \/
  (0 < bc /\ In k (boost_rows ps sp_companies)) \/ (0 < bs /\ In k (boost_rows ps sp_schools)).
Proof.
  unfold build_similar_edges. cbv zeta iota.
  assert (Hb : forall rows b es, is_Some (apply_boost rows b es !! k)
                                 <-> is_Some (es !! k) \/ In k rows).
  { intros rows b es. unfold apply_boost.
    pose proof (fold_merge_is_Some (fun k => k)
                  (fun _ o => (match o with Some w => w | None => 0 end) + b) rows es k) as H.
    cbv beta in H. rewrite H.
    split; intros [H'|H']; auto; [destruct H' as (r & Hr & <-); auto|right; eauto]. }
  assert (H0 : is_Some (fold_left (fun m r => merge_edge r.1 (fun _ => r.2) m)
                          (base_rows ps min wm) ∅ !! k)
               <-> exists r, In r (base_rows ps min wm) /\ r.1 = k).
  { pose proof (fold_merge_is_Some (fun r => r.1) (fun r _ => r.2) (base_rows ps min wm) ∅ k)
      as H.
    cbv beta in H. rewrite H.
    split; [intros [H'|H']; [destruct H' as [? H']; inversion H'|exact H']|auto]. }
  destruct (Qlt_le_dec 0 bc) as [Hc|Hc], (Qlt_le_dec 0 bs) as [Hs|Hs];
    rewrite ?Hb, H0;
    repeat match goal with H : ?x <= 0 |- _ => assert (~ 0 < x) by lra; clear H end;
    intuition.
Qed.

(** C2 (amended). With [clear_existing = True] and distinct person ids,
    for persons [a], [b] with [a.id < b.id], a [SIMILAR] edge between them
    exists iff they have at least one shared-skill path and at least
    [min_shared_skills] of them, or [boost_company > 0] and they share a
    company, or [boost_school > 0] and they share a school. *)
Theorem build_similar_edges_exists (ps : list SimPerson) (existing : EdgeStore) (min : Z)
  (wm : string) (bc bs : Q) (a b : SimPerson) :
  NoDup (map sp_id ps) -> In a ps -> In b ps -> String.ltb (sp_id a) (sp_id b) = true ->
  (similar_between (build_similar_edges ps existing min wm bc bs true) (sp_id a) (sp_id b) <->
   ((0 < path_count (sp_skills a) (sp_skills b))%nat
    /\ (min <= Z.of_nat (path_count (sp_skills a) (sp_skills b)))%Z) \/
   (0 < bc /\ (0 < path_count (sp_companies a) (sp_companies b))%nat) \/
   (0 < bs /\ (0 < path_count (sp_schools a) (sp_schools b))%nat)).
Proof.
  intros Hnd Ha Hb Hlt. unfold similar_between. rewrite !build_similar_edges_keys.
  assert (Hpair : forall a' b', In (a', b') (person_pairs ps) ->
                    (sp_id a', sp_id b') = (sp_id a, sp_id b) -> a' = a /\ b' = b).
  { intros a' b' Hp Heq. apply In_person_pairs in Hp as (Ha' & Hb' & _).
    injection Heq as E1 E2. split; eapply In_NoDup_map_eq; eauto. }
  assert (Hrev : forall a' b', In (a', b') (person_pairs ps) ->
                   (sp_id a', sp_id b') = (sp_id b, sp_id a) -> False).
  { intros a' b' Hp Heq. apply In_person_pairs in Hp as (_ & _ & Hl).
    injection Heq as E1 E2. rewrite E1, E2, string_ltb_asym in Hl by exact Hlt.
    discriminate. }
  assert (Hab : In (a, b) (person_pairs ps)) by (apply In_person_pairs; auto).
  rewrite !In_base_rows, !In_boost_rows.
  split.
  - intros [H|H]; [|exfalso].
    + destruct H as [(a' & b' & Hp & Hk & H1 & H2)
                    |[(Hc & a' & b' & Hp & Hk & H1)|(Hc & a' & b' & Hp & Hk & H1)]];
        symmetry in Hk; destruct (Hpair _ _ Hp Hk) as [-> ->]; auto.
    + destruct H as [(a' & b' & Hp & Hk & _)
                    |[(_ & a' & b' & Hp & Hk & _)|(_ & a' & b' & Hp & Hk & _)]];
        symmetry in Hk; exact (Hrev _ _ Hp Hk).
  - intros [H|[H|H]]; left.
    + left. exists a, b. destruct H; auto.
    + right; left. destruct H as [Hc H]. split; [exact Hc|]. exists a, b. auto.
    + right; right. destruct H as [Hs H]. split; [exact Hs|]. exists a, b. auto.
Qed.

Lemma build_similar_edges_exists_witness :
  let a := {| sp_id := "p1"; sp_skills := ["python"; "sql"]; sp_companies := ["acme"];
              sp_schools := [] |} in
  let b := {| sp_id := "p2"; sp_skills := ["python"; "sql"]; sp_companies := [];
              sp_schools := [] |} in
  similar_between (build_similar_edges [a; b] ∅ 2 "count" 1 (1#2) true) (sp_id a) (sp_id b) <->
  ((0 < path_count (sp_skills a) (sp_skills b))%nat
   /\ (2 <= Z.of_nat (path_count (sp_skills a) (sp_skills b)))%Z) \/
  (0 < 1 /\ (0 < path_count (sp_companies a) (sp_companies b))%nat) \/
  (0 < 1#2 /\ (0 < path_count (sp_schools a) (sp_schools b))%nat).
Proof.
  cbv zeta. apply build_similar_edges_exists.
  - simpl. exact (bool_decide_unpack (NoDup ["p1"; "p2"]) I).
  - simpl. auto.
  - simpl. auto.
  - reflexivity.
Defined.

(** C2 (as stated: false). With the defaults ([min_shared_skills = 2],
    [boost_company = 1.0]), two persons with no skills at all but the same
    company get a [SIMILAR] edge. *)
Lemma build_similar_edges_company_only :
  let a := {| sp_id := "p1"; sp_skills := []; sp_companies := ["acme"]; sp_schools := [] |} in
  let b := {| sp_id := "p2"; sp_skills := []; sp_companies := ["acme"]; sp_schools := [] |} in
  path_count (sp_skills a) (sp_skills b) = 0%nat /\
  similar_between (build_similar_edges [a; b] ∅ 2 "count" 1 (1#2) true) "p1" "p2".
Proof.
  cbv zeta. split; [reflexivity|]. unfold similar_between. left.
  vm_compute. eexists. reflexivity.
Qed.

(* ------------------------------------------------------------------ *)
(** ** [_levenshtein]: bounds of the distance table *)

Lemma lev_cur_ok (ca : ascii) (i : nat) (bs : list ascii) :
  forall (prev : list nat) (left j : nat),
  lev_row_ok i j prev -> lev_cell_ok (S i) j left ->
  lev_row_ok (S i) (S j) (lev_cur ca bs prev left).
Proof.
  induction bs as [|cb bs IH]; intros prev left j Hp Hl; simpl; [exact I|].
  destruct prev as [|pj1 [|pj rest]]; try exact I.
  destruct Hp as [H1 [H2 H3]].
  assert (Hv : lev_cell_ok (S i) (S j)
     (Nat.min (pj + 1) (Nat.min (left + 1) (pj1 + (if Ascii.eqb ca cb then 0 else 1))))).
  { unfold lev_cell_ok in *. destruct (Ascii.eqb ca cb); lia. }
  split; [exact Hv|]. apply IH; [|exact Hv].
  exact (conj H2 H3).
Qed.

Lemma lev_cur_length (ca : ascii) (bs : list ascii) :
  forall (prev : list nat) (left : nat),
  length prev = S (length bs) -> length (lev_cur ca bs prev left) = length bs.
Proof.
  induction bs as [|cb bs IH]; intros prev left Hl; simpl; [reflexivity|].
  destruct prev as [|pj1 [|pj rest]]; simpl in Hl; try lia.
  simpl. f_equal. apply IH. simpl. lia.
Qed.

Lemma lev_rows_ok (bs : list ascii) (xs : list ascii) :
  forall (k : nat) (prev : list nat),
  lev_row_ok k 0 prev -> length prev = S (length bs) ->
  lev_row_ok (k + length xs) 0 (lev_rows xs (S k) bs prev)
  /\ length (lev_rows xs (S k) bs prev) = S (length bs).
Proof.
  induction xs as [|ca xs IH]; intros k prev Hok Hlen; simpl.
  - rewrite Nat.add_0_r. auto.
  - replace (k + S (length xs))%nat with (S k + length xs)%nat by lia.
    apply IH.
    + simpl. split; [unfold lev_cell_ok; lia|].
      apply lev_cur_ok; [exact Hok|unfold lev_cell_ok; lia].
    + simpl. rewrite lev_cur_length by exact Hlen. reflexivity.
Qed.

Lemma lev_row_ok_seq (m : nat) : forall j, lev_row_ok 0 j (seq j m).
Proof.
  induction m as [|m IH]; intros j; simpl; [exact I|].
  split; [unfold lev_cell_ok; lia|apply IH].
Qed.

Lemma lev_row_ok_last (k : nat) (l : list nat) :
  forall j, lev_row_ok k j l -> l <> [] -> lev_cell_ok k (j + length l - 1) (List.last l 0%nat).
Proof.
  induction l as [|v l IH]; intros j Hok Hne; [congruence|].
  destruct Hok as [Hv Hok]. destruct l as [|w l].
  - simpl. replace (j + 1 - 1)%nat with j by lia. exact Hv.
  - change (List.last (v :: w :: l) 0%nat) with (List.last (w :: l) 0%nat).
    replace (j + length (v :: w :: l) - 1)%nat with (S j + length (w :: l) - 1)%nat
      by (simpl; lia).
    apply IH; [exact Hok|discriminate].
Qed.

Lemma length_list_ascii_of_string (s : string) :
  length (list_ascii_of_string s) = String.length s.
Proof. induction s; simpl; auto. Qed.

Lemma levenshtein_cell (a b : string) :
  lev_cell_ok (String.length a) (String.length b) (levenshtein a b).
Proof.
  unfold levenshtein, lev_cell_ok.
  destruct (String.eqb a b) eqn:Eab.
  { apply String.eqb_eq in Eab. subst. lia. }
  destruct (String.eqb a "") eqn:Ea.
  { apply String.eqb_eq in Ea. subst. simpl. lia. }
  destruct (String.eqb b "") eqn:Eb.
  { apply String.eqb_eq in Eb. subst. simpl. lia. }
  destruct (lev_rows_ok (list_ascii_of_string b) (list_ascii_of_string a) 0
              (seq 0 (length (list_ascii_of_string b) + 1))) as [Hok Hlen].
  { apply lev_row_ok_seq. }
  { rewrite length_seq. lia. }
  apply lev_row_ok_last in Hok.
  2:{ intros E. rewrite E in Hlen. discriminate. }
  rewrite Hlen, !length_list_ascii_of_string in Hok.
  replace (0 + S (String.length b) - 1)%nat with (String.length b) in Hok by lia.
  rewrite !length_list_ascii_of_string. exact Hok.
Qed.

(** The edit distance of [_levenshtein] is at most the length of the
    longer string. *)
Theorem levenshtein_le_max (a b : string) :
  (levenshtein a b <= Nat.max (String.length a) (String.length b))%nat.
Proof. apply levenshtein_cell. Qed.

(** The edit distance of [_levenshtein] is at least the difference of
    the two lengths. *)
Theorem levenshtein_ge_length_diff (a b : string) :
  (Z.abs (Z.of_nat (String.length a) - Z.of_nat (String.length b)) <= Z.of_nat (levenshtein a b))%Z.
Proof. pose proof (levenshtein_cell a b) as H. unfold lev_cell_ok in H. lia. Qed.

(** The quick length filter of [_fuzzy_normalize_companies]
    ([abs(len(u) - len(t)) > 3]: skip) never skips a name that the
    edit-distance test would accept: the test alone decides. *)
Theorem lev_close_length_filter_redundant (t u : string) :
  lev_close t u = (levenshtein t u <=? lev_thresh t u)%nat.
Proof.
  unfold lev_close.
  destruct (levenshtein t u <=? lev_thresh t u)%nat eqn:E; [|apply andb_false_r].
  rewrite andb_true_r. apply Z.leb_le.
  apply Nat.leb_le in E.
  pose proof (levenshtein_ge_length_diff t u) as H.
  assert (lev_thresh t u <= 3)%nat by (unfold lev_thresh; destruct (_ <=? 8)%nat; lia).
  lia.
Qed.

(* ------------------------------------------------------------------ *)
(** ** [_tokenize] and [_parse_query] *)

Lemma chars_str_map (f : ascii -> ascii) (s : string) :
  list_ascii_of_string (str_map f s) = map f (list_ascii_of_string s).
Proof. induction s as [|c s IH]; simpl; [reflexivity|]. rewrite IH. reflexivity. Qed.

Lemma chars_append (s1 s2 : string) :
  list_ascii_of_string (s1 ++ s2) = list_ascii_of_string s1 ++ list_ascii_of_string s2.
Proof. induction s1 as [|c s IH]; simpl; [reflexivity|]. rewrite IH. reflexivity. Qed.

Lemma split_acc_forall (P : ascii -> Prop) (sep : ascii -> bool) (l cur : list ascii)
  (part : list ascii) :
  List.Forall P l -> List.Forall (fun c => P c /\ sep c = false) cur ->
  In part (split_acc sep l cur) -> List.Forall (fun c => P c /\ sep c = false) part.
Proof.
  revert cur. induction l as [|c l IH]; intros cur Hl Hc Hin; simpl in Hin.
  - destruct Hin as [<-|[]]. apply Forall_rev, Hc.
  - inversion Hl as [|? ? Pc Hl']; subst.
    destruct (sep c) eqn:Es.
    + destruct Hin as [<-|Hin]; [apply Forall_rev, Hc|].
      apply (IH []); [exact Hl'|constructor|exact Hin].
    + apply (IH (c :: cur)); [exact Hl'| |exact Hin]. constructor; auto.
Qed.

Lemma split_on_forall (P : ascii -> Prop) (sep : ascii -> bool) (s part : string) :
  List.Forall P (list_ascii_of_string s) -> In part (split_on sep s) ->
  List.Forall (fun c => P c /\ sep c = false) (list_ascii_of_string part).
Proof.
  intros Hs Hin. unfold split_on in Hin.
  apply in_map_iff in Hin as (lp & <- & Hlp).
  rewrite list_ascii_of_string_of_list_ascii.
  exact (split_acc_forall P sep _ [] lp Hs (List.Forall_nil _) Hlp).
Qed.

Lemma concat_forall (P : ascii -> Prop) (sep : string) (ss : list string) :
  List.Forall P (list_ascii_of_string sep) ->
  (forall s, In s ss -> List.Forall P (list_ascii_of_string s)) ->
  List.Forall P (list_ascii_of_string (String.concat sep ss)).
Proof.
  intros Hsep. induction ss as [|s ss IH]; intros Hss; simpl; [constructor|].
  destruct ss as [|s' ss'].
  - apply Hss. left. reflexivity.
  - rewrite !chars_append. apply Forall_app. split; [apply Hss; left; reflexivity|].
    apply Forall_app. split; [exact Hsep|]. apply IH. intros x Hx. apply Hss. right. exact Hx.
Qed.

Lemma token_char_class (c : ascii) :
  tok_keep c && (negb (is_ws c) || Ascii.eqb c " ") && negb (tok_sep c) = true ->
  (97 <= nat_of_ascii c <= 122 \/ 48 <= nat_of_ascii c <= 57)%nat.
Proof.
  destruct c as [[] [] [] [] [] [] [] []]; vm_compute; intros H;
    first [discriminate H | lia].
Qed.

(** Every token of [_tokenize] is non-empty and made only of the
    characters [a-z] and [0-9]. *)
Theorem tokenize_tokens (text tok : string) :
  In tok (tokenize text) ->
  tok <> "" /\
  (forall c, In c (list_ascii_of_string tok) ->
     (97 <= nat_of_ascii c <= 122 \/ 48 <= nat_of_ascii c <= 57)%nat).
Proof.
  unfold tokenize. destruct (String.eqb text "") ; [intros []|]. cbv zeta.
  set (t1 := str_map (fun c => if tok_keep c then c else " "%char) (str_lower text)).
  destruct (String.eqb (collapse_ws t1) "") ; [intros []|].
  intros Hin. apply filter_In in Hin as [Hin Hne].
  split.
  { intros ->. discriminate Hne. }
  assert (H1 : List.Forall (fun c => tok_keep c = true) (list_ascii_of_string t1)).
  { unfold t1. rewrite chars_str_map. apply List.Forall_forall. intros c Hc.
    apply in_map_iff in Hc as (d & <- & _). destruct (tok_keep d) eqn:Ed; [exact Ed|reflexivity]. }
  assert (H2 : List.Forall (fun c => tok_keep c && (negb (is_ws c) || Ascii.eqb c " ") = true)
                 (list_ascii_of_string (collapse_ws t1))).
  { unfold collapse_ws. apply concat_forall.
    - repeat constructor.
    - intros s Hs. apply filter_In in Hs as [Hs _].
      pose proof (split_on_forall _ is_ws t1 s H1 Hs) as Hf.
      eapply List.Forall_impl; [|exact Hf]. simpl. intros c [Hk Hw].
      rewrite Hk, Hw. reflexivity. }
  pose proof (split_on_forall _ tok_sep _ tok H2 Hin) as H3.
  intros c Hc. rewrite List.Forall_forall in H3. destruct (H3 c Hc) as [Hk Hs].
  apply token_char_class. rewrite Hk, Hs. reflexivity.
Qed.

Lemma In_insert_uniq (x y : string) (l : list string) :
  In y (insert_uniq x l) <-> y = x \/ In y l.
Proof.
  induction l as [|z l IH]; simpl; [intuition (subst; auto)|].
  destruct (String.compare x z) eqn:E.
  - apply String.compare_eq_iff in E. subst. simpl. intuition (subst; auto).
  - simpl. intuition (subst; auto).
  - simpl. rewrite IH. intuition (subst; auto).
Qed.

Lemma In_sorted_set (y : string) (l : list string) : In y (sorted_set l) <-> In y l.
Proof.
  unfold sorted_set. induction l as [|x l IH]; simpl; [tauto|].
  rewrite In_insert_uniq, IH. intuition.
Qed.

Lemma insert_uniq_HdRel (x a : string) (l : list string) :
  str_lt a x -> HdRel str_lt a l -> HdRel str_lt a (insert_uniq x l).
Proof.
  intros Hax Hd. destruct l as [|y l]; simpl; [constructor; exact Hax|].
  destruct (String.compare x y); [exact Hd|constructor; exact Hax|].
  constructor. inversion Hd. assumption.
Qed.

Lemma insert_uniq_sorted (x : string) (l : list string) :
  Sorted str_lt l -> Sorted str_lt (insert_uniq x l).
Proof.
  induction l as [|y l IH]; intros Hs; simpl; [repeat constructor|].
  destruct (String.compare x y) eqn:E.
  - exact Hs.
  - constructor; [exact Hs|]. constructor. unfold str_lt, String.ltb. rewrite E. reflexivity.
  - inversion Hs as [|? ? Hs' Hd]; subst. constructor; [apply IH, Hs'|].
    apply insert_uniq_HdRel; [|exact Hd].
    unfold str_lt, String.ltb. rewrite String.compare_antisym, E. reflexivity.
Qed.

Lemma sorted_set_sorted (l : list string) : Sorted str_lt (sorted_set l).
Proof.
  unfold sorted_set. induction l as [|x l IH]; simpl; [constructor|].
  apply insert_uniq_sorted, IH.
Qed.

(** Both lists returned by [_parse_query] are strictly increasing:
    sorted, without duplicates. *)
Theorem parse_query_sorted (goal_text : string) (all_skills : list string) :
  Sorted str_lt (fst (parse_query goal_text all_skills)) /\
  Sorted str_lt (snd (parse_query goal_text all_skills)).
Proof. split; apply sorted_set_sorted. Qed.

Lemma role_terms_singularize :
  forallb (fun t => str_mem (singularize t) ROLE_ROOTS) role_terms = true.
Proof. vm_compute. reflexivity. Qed.

(** Every goal job token of [_parse_query] is one of [ROLE_ROOTS] or
    ends with [engineer]: plural role terms come back singular. *)
Theorem parse_query_job_tokens (goal_text : string) (all_skills : list string) (j : string) :
  In j (snd (parse_query goal_text all_skills)) ->
  In j ROLE_ROOTS \/ ends_with "engineer" j = true.
Proof.
  unfold parse_query, snd. cbv beta iota zeta. rewrite In_sorted_set. intros Hj.
  apply in_map_iff in Hj as (t & <- & Ht). apply filter_In in Ht as [_ Hc].
  apply orb_true_iff in Hc as [Hr|He].
  - left. apply str_mem_In. apply str_mem_In in Hr.
    pose proof role_terms_singularize as H. rewrite forallb_forall in H. exact (H t Hr).
  - unfold singularize.
    destruct (ends_with "s" t && str_mem (drop_last_char t) ROLE_ROOTS) eqn:E.
    + left. apply andb_true_iff in E as [_ E]. apply str_mem_In, E.
    + right. exact He.
Qed.

(* ------------------------------------------------------------------ *)
(** ** [_jaccard] *)

Lemma Qdiv_eq_1 (x u : Q) : ~ u == 0 -> (x / u == 1 <-> x == u).
Proof.
  intros Hu. split; intros H.
  - assert (E : x == x / u * u) by (field; exact Hu). rewrite E, H. ring.
  - rewrite H. field. exact Hu.
Qed.

Lemma Qdiv_eq_0 (x u : Q) : ~ u == 0 -> (x / u == 0 <-> x == 0).
Proof.
  intros Hu. split; intros H.
  - assert (E : x == x / u * u) by (field; exact Hu). rewrite E, H. ring.
  - rewrite H. field. exact Hu.
Qed.

(** [_jaccard] is symmetric. *)
Theorem jaccard_sym (a b : gset string) : jaccard a b = jaccard b a.
Proof.
  unfold jaccard. rewrite andb_comm.
  assert (E1 : a ∩ b = b ∩ a) by set_solver.
  assert (E2 : a ∪ b = b ∪ a) by set_solver.
  rewrite E1, E2. reflexivity.
Qed.

(** [_jaccard a b] is 1 exactly when the two sets are equal and not empty. *)
Theorem jaccard_one_iff (a b : gset string) : jaccard a b == 1 <-> a = b /\ a <> ∅.
Proof.
  unfold jaccard.
  destruct (bool_decide (a = ∅) && bool_decide (b = ∅)) eqn:E.
  { apply andb_true_iff in E as [Ea Eb]. apply bool_decide_eq_true in Ea, Eb. subst.
    split; [intros H; discriminate H|intros [_ []]; reflexivity]. }
  destruct (size (a ∪ b) =? 0)%nat eqn:Eu.
  { apply Nat.eqb_eq, size_empty_iff in Eu.
    exfalso. rewrite andb_false_iff, !bool_decide_eq_false in E.
    destruct E as [E|E]; apply E; set_solver. }
  apply Nat.eqb_neq in Eu.
  rewrite Qdiv_eq_1 by (change 0 with (inject_Z 0); rewrite inject_Z_injective; lia).
  rewrite inject_Z_injective. split.
  - intros Hs.
    assert (Hsub : a ∩ b ⊆ a ∪ b) by set_solver.
    assert (Heq : a ∩ b ≡ a ∪ b).
    { apply set_subseteq_antisymm; [exact Hsub|].
      destruct (decide (a ∪ b ⊆ a ∩ b)) as [Hs'|Hs']; [exact Hs'|].
      assert (Hlt : a ∩ b ⊂ a ∪ b) by set_solver.
      apply subset_size in Hlt. lia. }
    split.
    + apply leibniz_equiv. intros x. split; intros Hx.
      * assert (x ∈ a ∩ b) by (apply Heq; set_solver). set_solver.
      * assert (x ∈ a ∩ b) by (apply Heq; set_solver). set_solver.
    + intros ->. apply Eu. apply size_empty_iff. set_solver.
  - intros [<- Ha]. assert (Eaa : a ∩ a = a ∪ a) by set_solver. rewrite Eaa. reflexivity.
Qed.

(** [_jaccard a b] is 0 exactly when the two sets are disjoint (two empty
    sets included). *)
Theorem jaccard_zero_iff (a b : gset string) : jaccard a b == 0 <-> a ∩ b = ∅.
Proof.
  unfold jaccard.
  destruct (bool_decide (a = ∅) && bool_decide (b = ∅)) eqn:E.
  { apply andb_true_iff in E as [Ea Eb]. apply bool_decide_eq_true in Ea, Eb. subst.
    split; [intros _; set_solver|intros _; reflexivity]. }
  destruct (size (a ∪ b) =? 0)%nat eqn:Eu.
  { apply Nat.eqb_eq, size_empty_iff in Eu.
    exfalso. rewrite andb_false_iff, !bool_decide_eq_false in E.
    destruct E as [E|E]; apply E; set_solver. }
  apply Nat.eqb_neq in Eu.
  rewrite Qdiv_eq_0 by (change 0 with (inject_Z 0); rewrite inject_Z_injective; lia).
  change 0 with (inject_Z 0). rewrite inject_Z_injective.
  split; intros H.
  - apply leibniz_equiv, size_empty_iff. lia.
  - rewrite H, size_empty. reflexivity.
Qed.

(* ------------------------------------------------------------------ *)
(** ** [_parse_company_queries] *)

Lemma string_app_assoc (a b c : string) : ((a ++ b) ++ c)%string = (a ++ (b ++ c))%string.
Proof. induction a as [|ch a IH]; [reflexivity|]. exact (f_equal (String ch) IH). Qed.

Lemma prefix_cons (a b : ascii) (s t : string) :
  String.prefix (String a s) (String b t) = if ascii_dec a b then String.prefix s t else false.
Proof. reflexivity. Qed.

Lemma append_cons (c : ascii) (s t : string) : (String c s ++ t)%string = String c (s ++ t).
Proof. reflexivity. Qed.

Lemma prefix_spec (s t : string) : String.prefix s t = true <-> exists q, t = (s ++ q)%string.
Proof.
  revert t. induction s as [|a s IH]; intros t.
  - split; [intros _; exists t; reflexivity|intros _; destruct t; reflexivity].
  - destruct t as [|b t].
    + split; [discriminate|intros [q Hq]; discriminate Hq].
    + rewrite prefix_cons. destruct (ascii_dec a b) as [<-|Hab].
      * rewrite IH. split; intros [q Hq]; exists q.
        -- rewrite Hq. reflexivity.
        -- rewrite append_cons in Hq. injection Hq as Hq. exact Hq.
      * split; [discriminate|intros [q Hq]; rewrite append_cons in Hq; injection Hq as Hq; congruence].
Qed.

Lemma str_contains_spec (s t : string) :
  str_contains s t = true <-> exists p q, t = (p ++ s ++ q)%string.
Proof.
  induction t as [|b t IH].
  - change (String.prefix s "" || false = true <-> exists p q, "" = (p ++ s ++ q)%string).
    rewrite orb_false_r, prefix_spec. split.
    + intros [q Hq]. exists "", q. exact Hq.
    + intros (p & q & Hpq). destruct p; [|discriminate]. exists q. exact Hpq.
  - change (String.prefix s (String b t) || str_contains s t = true <->
            exists p q, String b t = (p ++ s ++ q)%string).
    rewrite orb_true_iff, prefix_spec, IH. split.
    + intros [[q Hq]|(p & q & Hpq)].
      * exists "", q. exact Hq.
      * exists (String b p), q. rewrite Hpq. reflexivity.
    + intros (p & q & Hpq). destruct p as [|c p].
      * left. exists q. exact Hpq.
      * right. rewrite append_cons in Hpq. injection Hpq as -> Hpq. exists p, q. exact Hpq.
Qed.

Lemma str_contains_suffix (a s t : string) :
  str_contains (a ++ s) t = true -> str_contains s t = true.
Proof.
  rewrite !str_contains_spec. intros (p & q & ->).
  exists (p ++ a)%string, q. rewrite !string_app_assoc. reflexivity.
Qed.

(** [_parse_company_queries] returns, strictly increasing, exactly the
    known company names (lowercased, stripped, not blank) that occur as
    [" name "] in the normalised query: the extra [" at name "] and
    [" company name "] checks never add a name. *)
Theorem parse_company_queries_spec (text : string) (all_companies : list string) :
  Sorted str_lt (parse_company_queries text all_companies) /\
  forall x, In x (parse_company_queries text all_companies) <->
    text <> "" /\
    exists c, In c all_companies /\ x = str_strip (str_lower c) /\ x <> "" /\
      str_contains (" " ++ x ++ " ") (company_token_text text) = true.
Proof.
  unfold parse_company_queries. split.
  { destruct (String.eqb text ""); [constructor|apply sorted_set_sorted]. }
  intros x. destruct (String.eqb text "") eqn:Et.
  { apply String.eqb_eq in Et. split; [intros []|intros [H _]; congruence]. }
  apply String.eqb_neq in Et. cbv zeta.
  rewrite In_sorted_set, in_flat_map. split.
  - intros (c & Hc & Hx). split; [exact Et|]. exists c. split; [exact Hc|].
    destruct (nonempty c); [|destruct Hx].
    destruct (nonempty (str_strip (str_lower c))) eqn:En; [|destruct Hx].
    assert (Hx' : x = str_strip (str_lower c) /\
                  str_contains (" " ++ str_strip (str_lower c) ++ " ")
                               (company_token_text text) = true).
    { destruct (str_contains (" " ++ str_strip (str_lower c) ++ " ") _) eqn:E1.
      - destruct Hx as [<-|[]]. auto.
      - destruct (str_contains (" at " ++ _) _ || str_contains (" company " ++ _) _) eqn:E2;
          [|destruct Hx].
        destruct Hx as [<-|[]]. exfalso.
        assert (H : str_contains (" " ++ str_strip (str_lower c) ++ " ")
                                 (company_token_text text) = true).
        { apply orb_true_iff in E2 as [E2|E2].
          - exact (str_contains_suffix " at" _ _ E2).
          - exact (str_contains_suffix " company" _ _ E2). }
        congruence. }
    destruct Hx' as [-> Hs]. split; [reflexivity|]. split; [|exact Hs].
    unfold nonempty in En. apply negb_true_iff, String.eqb_neq in En. exact En.
  - intros [_ (c & Hc & -> & Hne & Hs)]. exists c. split; [exact Hc|].
    assert (Hc0 : nonempty c = true).
    { destruct c; [exfalso; apply Hne; reflexivity|reflexivity]. }
    rewrite Hc0.
    assert (Hn : nonempty (str_strip (str_lower c)) = true).
    { unfold nonempty. apply negb_true_iff, String.eqb_neq. exact Hne. }
    rewrite Hn, Hs. left. reflexivity.
Qed.

Lemma company_char_class (c : ascii) :
  company_keep c && (negb (is_ws c) || Ascii.eqb c " ") = true ->
  (97 <= nat_of_ascii c <= 122 \/ 48 <= nat_of_ascii c <= 57)%nat \/ c = " "%char.
Proof.
  destruct c as [[] [] [] [] [] [] [] []]; vm_compute; intros H;
    first [discriminate H | left; lia | right; reflexivity].
Qed.

(** A name returned by [_parse_company_queries] is made only of [a-z],
    [0-9] and spaces: a company whose name has any other character
    (for example [AT&T]) is never found. *)
Theorem parse_company_queries_chars (text : string) (all_companies : list string) (x : string) :
  In x (parse_company_queries text all_companies) ->
  forall c, In c (list_ascii_of_string x) ->
    (97 <= nat_of_ascii c <= 122 \/ 48 <= nat_of_ascii c <= 57)%nat \/ c = " "%char.
Proof.
  intros Hx. apply (proj2 (parse_company_queries_spec text all_companies) x) in Hx
    as [_ (c0 & _ & _ & _ & Hs)].
  apply str_contains_spec in Hs as (p & q & Hpq).
  set (t1 := str_map (fun c => if company_keep c then c else " "%char) (str_lower text)).
  assert (H1 : List.Forall (fun c => company_keep c = true) (list_ascii_of_string t1)).
  { unfold t1. rewrite chars_str_map. apply List.Forall_forall. intros c Hc.
    apply in_map_iff in Hc as (d & <- & _).
    destruct (company_keep d) eqn:Ed; [exact Ed|reflexivity]. }
  assert (H2 : List.Forall (fun c => company_keep c && (negb (is_ws c) || Ascii.eqb c " ") = true)
                 (list_ascii_of_string (company_token_text text))).
  { unfold company_token_text. fold t1. cbv zeta.
    rewrite !chars_append. apply Forall_app. split; [repeat constructor|].
    apply Forall_app. split; [|repeat constructor].
    apply concat_forall; [repeat constructor|].
    intros s Hs. apply filter_In in Hs as [Hs _].
    assert (H1' : List.Forall (fun c => company_keep c = true)
                    (list_ascii_of_string (collapse_ws t1))).
    { unfold collapse_ws. apply concat_forall; [repeat constructor|].
      intros s' Hs'. apply filter_In in Hs' as [Hs' _].
      pose proof (split_on_forall _ is_ws t1 s' H1 Hs') as Hf.
      eapply List.Forall_impl; [|exact Hf]. simpl. tauto. }
    pose proof (split_on_forall _ is_ws _ s H1' Hs) as Hf.
    eapply List.Forall_impl; [|exact Hf]. simpl. intros c [Hk Hw].
    rewrite Hk, Hw. reflexivity. }
  rewrite Hpq, !chars_append in H2.
  intros c Hc. apply company_char_class.
  rewrite List.Forall_forall in H2. apply H2.
  rewrite !in_app_iff. tauto.
Qed.

(* ------------------------------------------------------------------ *)
(** ** [rank_my_connections]: order, size and top score of the result *)

Lemma insert_desc_HdRel (x a : RankedPerson) (l : list RankedPerson) :
  rp_score x <= rp_score a -> HdRel (key_desc rp_score) a l -> HdRel (key_desc rp_score) a (insert_desc x l).
Proof.
  intros Hx Hd. destruct l as [|y l]; simpl.
  - constructor. exact Hx.
  - destruct (Qlt_le_dec (rp_score y) (rp_score x)); constructor; [exact Hx|].
    inversion Hd; assumption.
Qed.

Lemma insert_desc_sorted (x : RankedPerson) (l : list RankedPerson) :
  Sorted (key_desc rp_score) l -> Sorted (key_desc rp_score) (insert_desc x l).
Proof.
  induction l as [|y l IH]; intros Hs; simpl.
  - repeat constructor.
  - destruct (Qlt_le_dec (rp_score y) (rp_score x)) as [Hlt|Hle].
    + constructor; [exact Hs|]. constructor. unfold key_desc. lra.
    + inversion Hs as [|? ? Hs' Hd]; subst.
      constructor; [apply IH, Hs'|]. apply insert_desc_HdRel; [exact Hle|exact Hd].
Qed.

Lemma sort_desc_fold_sorted (l acc : list RankedPerson) :
  Sorted (key_desc rp_score) acc ->
  Sorted (key_desc rp_score) (fold_left (fun acc x => insert_desc x acc) l acc).
Proof.
  revert acc. induction l as [|x l IH]; intros acc Hs; simpl; [exact Hs|].
  apply IH, insert_desc_sorted, Hs.
Qed.

Lemma sort_desc_sorted (l : list RankedPerson) : Sorted (key_desc rp_score) (sort_desc l).
Proof. apply sort_desc_fold_sorted. constructor. Qed.

Lemma firstn_sorted {A} (R : A -> A -> Prop) (n : nat) (l : list A) :
  Sorted R l -> Sorted R (firstn n l).
Proof.
  revert l. induction n as [|n IH]; intros l Hs; simpl; [constructor|].
  destruct l as [|x l]; [constructor|].
  inversion Hs as [|? ? Hs' Hd]; subst. constructor; [apply IH, Hs'|].
  destruct n, l; simpl; try constructor. inversion Hd; assumption.
Qed.

Lemma py_slice_to_sorted {A} (R : A -> A -> Prop) (l : list A) (n : Z) :
  Sorted R l -> Sorted R (py_slice_to l n).
Proof. unfold py_slice_to. destruct (0 <=? n)%Z; apply firstn_sorted. Qed.

(** The list returned by [rank_my_connections] is sorted by score,
    highest first. *)
Theorem rank_my_connections_sorted (ws : list Q) (cids : list string)
  (matches : list (string * Q)) (feats : gmap string PersonFeatures) (ego : gmap string Q)
  (gs gj gc : list string) (cc : gmap string (gset string)) (top_k : Z) (rt : option Q)
  (out : list RankedPerson) :
  rank_my_connections ws cids matches feats ego gs gj gc cc top_k rt = inr out ->
  Sorted (key_desc rp_score) out.
Proof.
  unfold rank_my_connections.
  destruct (unpack_weights ws); [discriminate|].
  destruct cids; [intros [= <-]; constructor|].
  case_bool_decide; [intros [= <-]; constructor|].
  intros [= <-]. apply py_slice_to_sorted, sort_desc_sorted.
Qed.

Lemma In_rescale_fields (t : option Q) (l : list RankedPerson) (r : RankedPerson) :
  In r (rescale t l) ->
  exists r0, In r0 l /\ rp_id r = rp_id r0 /\ rp_name r = rp_name r0 /\ rp_title r = rp_title r0.
Proof.
  intros Hin. unfold rescale in Hin.
  destruct t as [t|]; [|exists r; auto].
  destruct l as [|r0 rest]; [exists r; auto|].
  destruct (py_truthy_float _); [|exists r; auto]. cbv zeta in Hin.
  destruct (Qlt_le_dec _ _); [|exists r; auto].
  apply in_map_iff in Hin as (x & <- & Hx). exists x. auto.
Qed.

Lemma length_rescale (t : option Q) (l : list RankedPerson) :
  length (rescale t l) = length l.
Proof.
  unfold rescale. destruct t, l; try reflexivity.
  destruct (py_truthy_float _); [|reflexivity]. cbv zeta.
  destruct (Qlt_le_dec _ _); [apply length_map|reflexivity].
Qed.

Lemma length_insert_desc (x : RankedPerson) (l : list RankedPerson) :
  length (insert_desc x l) = S (length l).
Proof.
  induction l as [|y l IH]; simpl; [reflexivity|].
  destruct (Qlt_le_dec _ _); simpl; [reflexivity|]. rewrite IH. reflexivity.
Qed.

Lemma length_sort_desc (l : list RankedPerson) : length (sort_desc l) = length l.
Proof.
  unfold sort_desc.
  assert (H : forall acc, length (fold_left (fun acc x => insert_desc x acc) l acc)
                          = (length acc + length l)%nat).
  { induction l as [|x l IH]; intros acc; simpl; [lia|].
    rewrite IH, length_insert_desc. simpl. lia. }
  rewrite H. reflexivity.
Qed.

Lemma length_py_slice_to {A} (l : list A) (n : Z) :
  (length (py_slice_to l n) <= length l)%nat /\
  ((0 <= n)%Z -> (length (py_slice_to l n) <= Z.to_nat n)%nat).
Proof.
  unfold py_slice_to. destruct (0 <=? n)%Z eqn:E.
  - rewrite length_firstn. split; [lia|intros; lia].
  - apply Z.leb_gt in E. rewrite length_firstn. split; [lia|intros; lia].
Qed.

Lemma rank_scored_fields (w : Weights) (cids : list string) (matches : list (string * Q))
  (feats : gmap string PersonFeatures) (ego : gmap string Q) (gs gj gc : list string)
  (cc : gmap string (gset string)) (r : RankedPerson) :
  In r (rank_scored w cids matches feats ego gs gj gc cc) ->
  In (rp_id r) cids /\
  exists f, feats !! rp_id r = Some f /\
    rp_name r = (if nonempty (f_name f) then f_name f else rp_id r) /\ rp_title r = f_title f.
Proof.
  unfold rank_scored. cbv zeta. intros Hin.
  apply in_flat_map in Hin as (pid & Hpid & Hr).
  destruct (feats !! pid) as [f|] eqn:Ef; [|destruct Hr].
  destruct Hr as [<-|[]]. simpl. split; [exact Hpid|]. exists f. auto.
Qed.

Lemma length_flat_map_le1 {A B} (F : A -> list B) (l : list A) :
  (forall x, (length (F x) <= 1)%nat) -> (length (flat_map F l) <= length l)%nat.
Proof.
  intros HF. induction l as [|x l IH]; simpl; [lia|].
  rewrite length_app. specialize (HF x). lia.
Qed.

Lemma length_rank_scored (w : Weights) (cids : list string) (matches : list (string * Q))
  (feats : gmap string PersonFeatures) (ego : gmap string Q) (gs gj gc : list string)
  (cc : gmap string (gset string)) :
  (length (rank_scored w cids matches feats ego gs gj gc cc) <= length cids)%nat.
Proof.
  unfold rank_scored. cbv zeta.
  apply length_flat_map_le1. intros x. destruct (feats !! x); simpl; lia.
Qed.

(** [rank_my_connections] returns at most one person per candidate id
    and at most [top_k] of them (for [top_k >= 0]); each is a candidate
    with a feature row, named by that row's name (or by its id when the
    name is empty) and titled by its title. *)
Theorem rank_my_connections_output (ws : list Q) (cids : list string)
  (matches : list (string * Q)) (feats : gmap string PersonFeatures) (ego : gmap string Q)
  (gs gj gc : list string) (cc : gmap string (gset string)) (top_k : Z) (rt : option Q)
  (out : list RankedPerson) :
  rank_my_connections ws cids matches feats ego gs gj gc cc top_k rt = inr out ->
  (length out <= length cids)%nat /\
  ((0 <= top_k)%Z -> (length out <= Z.to_nat top_k)%nat) /\
  (forall r, In r out ->
     In (rp_id r) cids /\
     exists f, feats !! rp_id r = Some f /\
       rp_name r = (if nonempty (f_name f) then f_name f else rp_id r) /\
       rp_title r = f_title f).
Proof.
  unfold rank_my_connections.
  destruct (unpack_weights ws) as [e|w]; [discriminate|].
  destruct cids as [|cid cids'].
  { intros [= <-]. simpl. split; [lia|]. split; [lia|]. intros r []. }
  case_bool_decide.
  { intros [= <-]. simpl. split; [lia|]. split; [lia|]. intros r []. }
  intros [= <-].
  set (scored := rank_scored w (cid :: cids') matches feats ego gs gj gc cc).
  destruct (length_py_slice_to (sort_desc (rescale rt scored)) top_k) as [L1 L2].
  rewrite length_sort_desc, length_rescale in L1.
  pose proof (length_rank_scored w (cid :: cids') matches feats ego gs gj gc cc) as L3.
  fold scored in L3.
  split; [lia|]. split; [intros Hk; exact (L2 Hk)|].
  intros r Hin.
  apply In_py_slice_to, In_sort_desc, In_rescale_fields in Hin
    as (r0 & Hr0 & Hid & Hn & Ht).
  apply rank_scored_fields in Hr0 as (Hc & f & Hf & Hn0 & Ht0).
  rewrite Hid. split; [exact Hc|]. exists f. rewrite Hn, Ht, Hn0, Ht0. auto.
Qed.

Lemma In_insert_desc_2 (x r : RankedPerson) (l : list RankedPerson) :
  r = x \/ In r l -> In r (insert_desc x l).
Proof.
  induction l as [|y l IH]; simpl; [intuition|].
  destruct (Qlt_le_dec (rp_score y) (rp_score x)); simpl; [intuition|].
  intros [->|[->|H]]; auto.
Qed.

Lemma In_sort_desc_2 (l : list RankedPerson) (r : RankedPerson) :
  In r l -> In r (sort_desc l).
Proof.
  unfold sort_desc.
  assert (H : forall acc, In r acc \/ In r l ->
                In r (fold_left (fun acc x => insert_desc x acc) l acc)).
  { induction l as [|x l IH]; intros acc Hr; simpl in *; [tauto|].
    apply IH. destruct Hr as [Hr|[<-|Hr]]; auto using In_insert_desc_2. }
  intros Hr. apply H. auto.
Qed.

Lemma py_max_from_In (acc : Q) (l : list Q) :
  py_max_from acc l = acc \/ In (py_max_from acc l) l.
Proof.
  revert acc. induction l as [|y l IH]; intros acc; simpl; [auto|].
  destruct (Qlt_le_dec acc y).
  - destruct (IH y) as [->|H]; auto.
  - destruct (IH acc) as [->|H]; auto.
Qed.

Lemma py_slice_to_cons {A} (l : list A) (n : Z) (r : A) (rest : list A) :
  py_slice_to l n = r :: rest -> exists l', l = r :: l'.
Proof.
  unfold py_slice_to. destruct (0 <=? n)%Z;
    destruct (_ : nat) as [|k]; simpl; try discriminate;
    destruct l as [|y l]; simpl; try discriminate; intros [= -> _]; eauto.
Qed.

Lemma sorted_head_max (r e : RankedPerson) (l : list RankedPerson) :
  Sorted (key_desc rp_score) (r :: l) -> In e (r :: l) -> rp_score e <= rp_score r.
Proof.
  intros Hs He. apply Sorted_StronglySorted in Hs.
  2:{ intros a b c H1 H2. unfold key_desc in *. lra. }
  inversion Hs as [|? ? _ Hf]; subst.
  destruct He as [->|He]; [lra|]. rewrite List.Forall_forall in Hf. exact (Hf e He).
Qed.

(** With a positive [rescale_top] and some positive raw score, the first
    person returned by [rank_my_connections] has score
    [round(rescale_top, 6)]. *)
Theorem rank_my_connections_top_score (ws : list Q) (w : Weights) (cids : list string)
  (matches : list (string * Q)) (feats : gmap string PersonFeatures) (ego : gmap string Q)
  (gs gj gc : list string) (cc : gmap string (gset string)) (top_k : Z) (t : Q)
  (r : RankedPerson) (rest : list RankedPerson) :
  unpack_weights ws = inr w ->
  (exists s, In s (rank_scored w cids matches feats ego gs gj gc cc) /\ 0 < rp_score s) ->
  0 < t ->
  rank_my_connections ws cids matches feats ego gs gj gc cc top_k (Some t) = inr (r :: rest) ->
  rp_score r == round6 t.
Proof.
  intros Hw (s & Hs & Hs0) Ht. unfold rank_my_connections. rewrite Hw.
  destruct cids as [|cid cids']; [discriminate|].
  case_bool_decide; [discriminate|].
  set (scored := rank_scored w (cid :: cids') matches feats ego gs gj gc cc) in *.
  intros [= Hout].
  apply py_slice_to_cons in Hout as (l' & Hl').
  change (sort_desc (rescale (Some t) scored) = r :: l') in Hl'.
  assert (Hsorted : Sorted (key_desc rp_score) (r :: l')) by (rewrite <- Hl'; apply sort_desc_sorted).
  destruct scored as [|r0 rs] eqn:Esc; [destruct Hs|].
  unfold rescale in Hl'.
  assert (Htr : py_truthy_float (Some t) = true).
  { simpl. destruct (Qeq_bool t 0) eqn:E; [|reflexivity].
    apply Qeq_bool_eq in E. lra. }
  rewrite Htr in Hl'. cbv zeta in Hl'.
  set (m0 := py_max_from (rp_score r0) (map rp_score rs)) in *.
  assert (Hm0 : rp_score s <= m0).
  { apply py_max_ge_elem. destruct Hs as [<-|Hs]; [left; reflexivity|].
    right. apply in_map, Hs. }
  assert (Hq : Qeq_bool m0 0 = false).
  { destruct (Qeq_bool m0 0) eqn:E; [|reflexivity]. apply Qeq_bool_eq in E. lra. }
  rewrite Hq in Hl'.
  destruct (Qlt_le_dec 0 m0) as [Hpos|Hneg]; [|lra].
  set (f := fun x : RankedPerson => set_score x (round6 (rp_score x / m0 * t))) in *.
  assert (Hmm : m0 / m0 * t == t) by (field; lra).
  apply Qle_antisym.
  - assert (Hr : In r (sort_desc (map f (r0 :: rs)))) by (rewrite Hl'; left; reflexivity).
    apply In_sort_desc, in_map_iff in Hr as (x & <- & Hx).
    simpl. apply round6_mono.
    assert (Hxm : rp_score x <= m0).
    { apply py_max_ge_elem. destruct Hx as [<-|Hx]; [left; reflexivity|].
      right. apply in_map, Hx. }
    apply Qle_trans with (m0 / m0 * t); [apply scale_mono; lra|rewrite Hmm; apply Qle_refl].
  - assert (Hx : exists xm, In xm (r0 :: rs) /\ rp_score xm = m0).
    { destruct (py_max_from_In (rp_score r0) (map rp_score rs)) as [E|E].
      - exists r0. split; [left; reflexivity|]. symmetry. exact E.
      - apply in_map_iff in E as (xm & E & Hxm). exists xm. split; [right; exact Hxm|exact E]. }
    destruct Hx as (xm & Hxm & Exm).
    assert (He : In (f xm) (r :: l')) by (rewrite <- Hl'; apply In_sort_desc_2, in_map, Hxm).
    pose proof (sorted_head_max r (f xm) l' Hsorted He) as Hle.
    simpl in Hle. rewrite Exm in Hle.
    apply Qle_trans with (round6 (m0 / m0 * t)); [|exact Hle].
    apply round6_mono. rewrite Hmm. apply Qle_refl.
Qed.


(* ------------------------------------------------------------------ *)
(** ** [_minmax_norm], [_tokenize_title] and [rank_connectors] (precompute_graph.py) *)

Lemma py_min_from_In (acc : Q) (l : list Q) :
  py_min_from acc l = acc \/ In (py_min_from acc l) l.
Proof.
  revert acc. induction l as [|y l IH]; intros acc; simpl; [auto|].
  destruct (Qlt_le_dec y acc).
  - destruct (IH y) as [->|H]; auto.
  - destruct (IH acc) as [->|H]; auto.
Qed.

(** [_minmax_norm] keeps the length of its input and returns values in
    [0, 1]. *)
Theorem minmax_norm_range (values : list Q) :
  length (minmax_norm values) = length values /\
  (forall x, In x (minmax_norm values) -> 0 <= x <= 1).
Proof.
  destruct values as [|v0 rest]; [split; [reflexivity|intros x []]|].
  unfold minmax_norm. cbv zeta.
  destruct (Qle_bool _ _) eqn:E.
  - split; [apply length_map|]. intros x Hx. apply in_map_iff in Hx as (y & <- & _). lra.
  - split; [apply length_map|]. intros x Hx. apply in_map_iff in Hx as (y & <- & Hy).
    assert (Hlt : py_min_from v0 rest < py_max_from v0 rest).
    { apply Qnot_le_lt. intros Hle. apply Qle_bool_iff in Hle. congruence. }
    apply normalized_unit; [apply py_min_le_elem, Hy|apply py_max_ge_elem, Hy|exact Hlt].
Qed.

(** [_minmax_norm] keeps the order of its input: a value not larger than
    another is normalised to a value not larger. *)
Theorem minmax_norm_monotone (values : list Q) (i j : nat) (vi vj ni nj : Q) :
  nth_error values i = Some vi -> nth_error values j = Some vj ->
  nth_error (minmax_norm values) i = Some ni -> nth_error (minmax_norm values) j = Some nj ->
  vi <= vj -> ni <= nj.
Proof.
  destruct values as [|v0 rest]; [rewrite nth_error_nil; discriminate|].
  unfold minmax_norm. cbv zeta.
  intros Hi Hj Hni Hnj Hv.
  destruct (Qle_bool _ _) eqn:E.
  - rewrite nth_error_map, Hi in Hni. rewrite nth_error_map, Hj in Hnj.
    injection Hni as <-. injection Hnj as <-. lra.
  - rewrite nth_error_map, Hi in Hni. rewrite nth_error_map, Hj in Hnj.
    injection Hni as <-. injection Hnj as <-.
    assert (Hlt : py_min_from v0 rest < py_max_from v0 rest).
    { apply Qnot_le_lt. intros Hle. apply Qle_bool_iff in Hle. congruence. }
    unfold Qdiv. apply Qmult_le_compat_r; [lra|].
    apply Qlt_le_weak, Qinv_lt_0_compat. lra.
Qed.

(** When the input of [_minmax_norm] has two different values, the output
    contains 0 (for the minimum) and 1 (for the maximum). *)
Theorem minmax_norm_extremes (values : list Q) (v w : Q) :
  In v values -> In w values -> ~ v == w ->
  (exists x, In x (minmax_norm values) /\ x == 0) /\
  (exists y, In y (minmax_norm values) /\ y == 1).
Proof.
  intros Hv Hw Hvw. destruct values as [|v0 rest]; [destruct Hv|].
  unfold minmax_norm. cbv zeta.
  set (mn := py_min_from v0 rest). set (mx := py_max_from v0 rest).
  assert (Hlt : mn < mx).
  { pose proof (py_min_le_elem v0 rest v Hv). pose proof (py_max_ge_elem v0 rest v Hv).
    pose proof (py_min_le_elem v0 rest w Hw). pose proof (py_max_ge_elem v0 rest w Hw).
    fold mn mx in H, H0, H1, H2.
    destruct (Qlt_le_dec mn mx) as [H3|H3]; [exact H3|]. exfalso. apply Hvw. lra. }
  assert (E : Qle_bool mx mn = false).
  { destruct (Qle_bool mx mn) eqn:E; [|reflexivity]. apply Qle_bool_iff in E. lra. }
  rewrite E.
  assert (Hmn : In mn (v0 :: rest)).
  { destruct (py_min_from_In v0 rest) as [H|H]; [left; symmetry; exact H|right; exact H]. }
  assert (Hmx : In mx (v0 :: rest)).
  { destruct (py_max_from_In v0 rest) as [H|H]; [left; symmetry; exact H|right; exact H]. }
  split.
  - exists ((mn - mn) / (mx - mn)). split; [apply (in_map (fun v => (v - mn) / (mx - mn))), Hmn|].
    field. lra.
  - exists ((mx - mn) / (mx - mn)). split; [apply (in_map (fun v => (v - mn) / (mx - mn))), Hmx|].
    field. lra.
Qed.

Lemma lower_char_not_upper (c : ascii) :
  ~ (65 <= nat_of_ascii (lower_char c) <= 90)%nat.
Proof. destruct c as [[] [] [] [] [] [] [] []]; vm_compute; lia. Qed.

(** Every token of [_tokenize_title] is non-empty, has none of the
    separators space, [/], [+], [&], [-] and no uppercase ASCII letter. *)
Theorem tokenize_title_tokens (s t : string) :
  In t (tokenize_title s) ->
  t <> "" /\
  forall c, In c (list_ascii_of_string t) ->
    title_sep c = false /\ ~ (65 <= nat_of_ascii c <= 90)%nat.
Proof.
  unfold tokenize_title. destruct (String.eqb s ""); [intros []|].
  intros Hin. apply filter_In in Hin as [Hin Hne]. split; [intros ->; discriminate Hne|].
  assert (H1 : List.Forall (fun c => ~ (65 <= nat_of_ascii c <= 90)%nat)
                 (list_ascii_of_string (str_lower s))).
  { unfold str_lower. rewrite chars_str_map. apply List.Forall_forall. intros c Hc.
    apply in_map_iff in Hc as (d & <- & _). apply lower_char_not_upper. }
  pose proof (split_on_forall _ title_sep _ t H1 Hin) as H2.
  intros c Hc. rewrite List.Forall_forall in H2. destruct (H2 c Hc). auto.
Qed.

Section SortByDesc.
Context {A : Type} (key : A -> Q).

Lemma In_insert_by_desc (x r : A) (l : list A) :
  In r (insert_by_desc key x l) <-> r = x \/ In r l.
Proof.
  induction l as [|y l IH]; simpl; [intuition (subst; auto)|].
  destruct (Qlt_le_dec (key y) (key x)); simpl; [intuition (subst; auto)|].
  rewrite IH. intuition (subst; auto).
Qed.

Lemma In_sort_by_desc (l : list A) (r : A) : In r (sort_by_desc key l) <-> In r l.
Proof.
  unfold sort_by_desc.
  assert (H : forall acc, In r (fold_left (fun acc x => insert_by_desc key x acc) l acc)
                          <-> In r acc \/ In r l).
  { induction l as [|x l IH]; intros acc; simpl; [tauto|].
    rewrite IH, In_insert_by_desc. intuition (subst; auto). }
  rewrite H. simpl. tauto.
Qed.

Lemma length_sort_by_desc (l : list A) : length (sort_by_desc key l) = length l.
Proof.
  unfold sort_by_desc.
  assert (Hins : forall x l, length (insert_by_desc key x l) = S (length l)).
  { intros x l0. induction l0 as [|y l0 IH]; simpl; [reflexivity|].
    destruct (Qlt_le_dec _ _); simpl; [reflexivity|]. rewrite IH. reflexivity. }
  assert (H : forall acc, length (fold_left (fun acc x => insert_by_desc key x acc) l acc)
                          = (length acc + length l)%nat).
  { induction l as [|x l IH]; intros acc; simpl; [lia|]. rewrite IH, Hins. simpl. lia. }
  rewrite H. reflexivity.
Qed.

Lemma sort_by_desc_sorted (l : list A) : Sorted (key_desc key) (sort_by_desc key l).
Proof.
  unfold sort_by_desc.
  assert (Hhd : forall x a l, key x <= key a -> HdRel (key_desc key) a l ->
                              HdRel (key_desc key) a (insert_by_desc key x l)).
  { intros x a l0 Hx Hd. destruct l0 as [|y l0]; simpl; [constructor; exact Hx|].
    destruct (Qlt_le_dec (key y) (key x)); constructor; [exact Hx|]. inversion Hd; assumption. }
  assert (Hins : forall x l, Sorted (key_desc key) l -> Sorted (key_desc key) (insert_by_desc key x l)).
  { intros x l0. induction l0 as [|y l0 IH]; intros Hs; simpl; [repeat constructor|].
    destruct (Qlt_le_dec (key y) (key x)) as [Hlt|Hle].
    - constructor; [exact Hs|]. constructor. unfold key_desc. lra.
    - inversion Hs as [|? ? Hs' Hd]; subst. constructor; [apply IH, Hs'|].
      apply Hhd; [exact Hle|exact Hd]. }
  assert (H : forall acc, Sorted (key_desc key) acc ->
                Sorted (key_desc key) (fold_left (fun acc x => insert_by_desc key x acc) l acc)).
  { induction l as [|x l IH]; intros acc Hs; simpl; [exact Hs|]. apply IH, Hins, Hs. }
  apply H. constructor.
Qed.

End SortByDesc.

Lemma scaled_unit (a x : Q) : 0 <= a -> 0 <= x <= 1 -> 0 <= a * x <= a.
Proof.
  intros Ha [H0 H1]. split.
  - apply Qmult_le_0_compat; assumption.
  - rewrite <- (Qmult_1_r a) at 2. rewrite (Qmult_comm a x), (Qmult_comm a 1). apply Qmult_le_compat_r; assumption.
Qed.

Lemma nth_minmax_norm_unit (i : nat) (values : list Q) :
  0 <= nth i (minmax_norm values) 0 <= 1.
Proof.
  destruct (nth_in_or_default i (minmax_norm values) 0) as [H|H].
  - exact (proj2 (minmax_norm_range values) _ H).
  - rewrite H. lra.
Qed.

(** Every connector returned by [rank_connectors] is one of the people
    read, with skill, job and structure components in [0, 1]; with
    non-negative weights its score lies in [0, alpha + beta + gamma]. *)
Theorem rank_connectors_components (all_skills : gset string) (goal_text : option string)
  (goal_skills : option (list string)) (goal_title : option string)
  (alpha beta gamma : Q) (top_k : Z) (people : list ConnPerson) (c : Connector) :
  In c (rank_connectors all_skills goal_text goal_skills goal_title alpha beta gamma top_k people) ->
  In (cn_person c) people /\
  0 <= cn_skill_sim c <= 1 /\ 0 <= cn_job_sim c <= 1 /\ 0 <= cn_struct c <= 1 /\
  (0 <= alpha -> 0 <= beta -> 0 <= gamma -> 0 <= cn_score c <= alpha + beta + gamma).
Proof.
  unfold rank_connectors. intros Hin.
  apply In_py_slice_to, In_sort_by_desc in Hin.
  unfold connector_scores in Hin.
  apply in_map_iff in Hin as ([i p] & <- & Hip). simpl.
  split; [exact (in_combine_r _ _ _ _ Hip)|].
  set (sk := jaccard _ _). set (jb := jaccard _ _).
  assert (Hsk : 0 <= sk <= 1) by apply jaccard_bounds.
  assert (Hjb : 0 <= jb <= 1) by apply jaccard_bounds.
  set (st := (_ + _ + _ + _ + _ + _) / 6).
  assert (Hst : 0 <= st <= 1).
  { unfold st.
    pose proof (nth_minmax_norm_unit i (map cp_bS people)).
    pose proof (nth_minmax_norm_unit i (map cp_bJ people)).
    pose proof (nth_minmax_norm_unit i (map cp_bpS people)).
    pose proof (nth_minmax_norm_unit i (map cp_bpJ people)).
    pose proof (nth_minmax_norm_unit i (map cp_bcS people)).
    pose proof (nth_minmax_norm_unit i (map cp_bcJ people)).
    split; [apply Qle_shift_div_l; lra|apply Qle_shift_div_r; lra]. }
  split; [exact Hsk|]. split; [exact Hjb|]. split; [exact Hst|].
  intros Ha Hb Hg.
  pose proof (scaled_unit alpha sk Ha Hsk). pose proof (scaled_unit beta jb Hb Hjb).
  pose proof (scaled_unit gamma st Hg Hst). lra.
Qed.

(** [rank_connectors] returns its connectors sorted by score, highest
    first, at most one per person read and at most [top_k] of them
    (for [top_k >= 0]). *)
Theorem rank_connectors_order (all_skills : gset string) (goal_text : option string)
  (goal_skills : option (list string)) (goal_title : option string)
  (alpha beta gamma : Q) (top_k : Z) (people : list ConnPerson) :
  let out := rank_connectors all_skills goal_text goal_skills goal_title alpha beta gamma top_k people in
  Sorted (key_desc cn_score) out /\
  (length out <= length people)%nat /\
  ((0 <= top_k)%Z -> (length out <= Z.to_nat top_k)%nat).
Proof.
  cbv zeta. unfold rank_connectors. cbv zeta.
  set (l := sort_by_desc cn_score _).
  assert (Hl : length l = length people).
  { unfold l. rewrite length_sort_by_desc. unfold connector_scores.
    rewrite length_map, length_combine, length_seq. lia. }
  split.
  - unfold py_slice_to. destruct (0 <=? top_k)%Z; apply firstn_sorted, sort_by_desc_sorted.
  - unfold py_slice_to. destruct (0 <=? top_k)%Z eqn:E; rewrite length_firstn.
    + split; [lia|intros; lia].
    + apply Z.leb_gt in E. split; [lia|intros; lia].
Qed.

(* ------------------------------------------------------------------ *)
(** ** Instances of the properties above on concrete inputs *)

Lemma rank_my_connections_sorted_witness :
  exists out,
    rank_my_connections [1; 0; 0; 0; 0] ["b"; "a"] [("a", 1#2); ("b", 1#4)]
      (<["a" := {| f_skills := ["python"]; f_job_tokens := ["engineer"]; f_bp_skills := 0;
                   f_bp_job := 0; f_name := "A"; f_title := "Engineer" |}]>
       (<["b" := {| f_skills := []; f_job_tokens := []; f_bp_skills := 1;
                    f_bp_job := 0; f_name := ""; f_title := "" |}]> ∅)) ∅ ["python"] ["engineer"] [] ∅ 10 (Some (8#10)) = inr out /\
    Sorted (key_desc rp_score) out.
Proof.
  match goal with
  | |- exists out, ?e = inr out /\ _ =>
      destruct e as [err|out] eqn:E; pose proof E as E0; vm_compute in E0;
      [discriminate|injection E0 as E0; subst out]
  end.
  eexists. split; [reflexivity|]. exact (rank_my_connections_sorted _ _ _ _ _ _ _ _ _ _ _ _ E).
Defined.

Lemma rank_my_connections_output_witness :
  exists out,
    rank_my_connections [1; 0; 0; 0; 0] ["b"; "a"] [("a", 1#2); ("b", 1#4)]
      (<["a" := {| f_skills := ["python"]; f_job_tokens := ["engineer"]; f_bp_skills := 0;
                   f_bp_job := 0; f_name := "A"; f_title := "Engineer" |}]>
       (<["b" := {| f_skills := []; f_job_tokens := []; f_bp_skills := 1;
                    f_bp_job := 0; f_name := ""; f_title := "" |}]> ∅)) ∅ ["python"] ["engineer"] [] ∅ 1 (Some (8#10)) = inr out /\
    (length out <= 1)%nat.
Proof.
  match goal with
  | |- exists out, ?e = inr out /\ _ =>
      destruct e as [err|out] eqn:E; pose proof E as E0; vm_compute in E0;
      [discriminate|injection E0 as E0; subst out]
  end.
  eexists. split; [reflexivity|].
  exact (proj1 (proj2 (rank_my_connections_output _ _ _ _ _ _ _ _ _ _ _ _ E)) ltac:(lia)).
Defined.

Lemma rank_my_connections_top_score_witness :
  exists r rest,
    rank_my_connections [1; 0; 0; 0; 0] ["b"; "a"] [("a", 1#2); ("b", 1#4)]
      (<["a" := {| f_skills := ["python"]; f_job_tokens := ["engineer"]; f_bp_skills := 0;
                   f_bp_job := 0; f_name := "A"; f_title := "Engineer" |}]>
       (<["b" := {| f_skills := []; f_job_tokens := []; f_bp_skills := 1;
                    f_bp_job := 0; f_name := ""; f_title := "" |}]> ∅)) ∅ ["python"] ["engineer"] [] ∅ 10 (Some (8#10)) = inr (r :: rest) /\
    rp_score r == round6 (8#10).
Proof.
  match goal with
  | |- exists r rest, ?e = inr (r :: rest) /\ _ =>
      destruct e as [err|[|r rest]] eqn:E; pose proof E as E0; vm_compute in E0;
      [discriminate|discriminate|]
  end.
  exists r, rest. split; [reflexivity|].
  refine (rank_my_connections_top_score [1; 0; 0; 0; 0] (1, 0, 0, 0, 0, 0) _ _ _ _ _ _ _ _ _ _ _ _
            eq_refl _ _ E).
  - eexists. split; [vm_compute; left; reflexivity|vm_compute; reflexivity].
  - vm_compute. reflexivity.
Defined.

Lemma tokenize_tokens_witness :
  In "python"%string (tokenize "Senior Python/ML engineer!") /\ "python"%string <> "".
Proof.
  assert (H : In "python"%string (tokenize "Senior Python/ML engineer!"))
    by (vm_compute; tauto).
  split; [exact H|exact (proj1 (tokenize_tokens _ _ H))].
Defined.

Lemma parse_query_job_tokens_witness :
  In "engineer"%string (snd (parse_query "backend engineers in Berlin" [])) /\
  (In "engineer"%string ROLE_ROOTS \/ ends_with "engineer" "engineer" = true).
Proof.
  assert (H : In "engineer"%string (snd (parse_query "backend engineers in Berlin" [])))
    by (vm_compute; tauto).
  split; [exact H|exact (parse_query_job_tokens _ _ _ H)].
Defined.

Lemma parse_company_queries_chars_witness :
  In "google cloud"%string (parse_company_queries "Anyone at Google Cloud or AT&T?"
                              ["Google Cloud"; "AT&T"]) /\
  forall c, In c (list_ascii_of_string "google cloud") ->
    (97 <= nat_of_ascii c <= 122 \/ 48 <= nat_of_ascii c <= 57)%nat \/ c = " "%char.
Proof.
  assert (H : In "google cloud"%string
                (parse_company_queries "Anyone at Google Cloud or AT&T?" ["Google Cloud"; "AT&T"]))
    by (vm_compute; tauto).
  split; [exact H|exact (parse_company_queries_chars _ _ _ H)].
Defined.

Lemma minmax_norm_monotone_witness :
  exists ni nj, nth_error (minmax_norm [3; 1; 2]) 1 = Some ni /\
                nth_error (minmax_norm [3; 1; 2]) 2 = Some nj /\ ni <= nj.
Proof.
  do 2 eexists. split; [reflexivity|]. split; [reflexivity|].
  exact (minmax_norm_monotone [3; 1; 2] 1 2 1 2 _ _ eq_refl eq_refl eq_refl eq_refl
           ltac:(vm_compute; discriminate)).
Defined.

Lemma minmax_norm_extremes_witness :
  (exists x, In x (minmax_norm [3; 1; 2]) /\ x == 0) /\
  (exists y, In y (minmax_norm [3; 1; 2]) /\ y == 1).
Proof.
  apply (minmax_norm_extremes [3; 1; 2] 3 1); [left; reflexivity|right; left; reflexivity|].
  vm_compute. discriminate.
Defined.

Lemma tokenize_title_tokens_witness :
  In "engineer"%string (tokenize_title "Senior Software-Engineer/ML") /\
  "engineer"%string <> "".
Proof.
  assert (H : In "engineer"%string (tokenize_title "Senior Software-Engineer/ML"))
    by (vm_compute; tauto).
  split; [exact H|exact (proj1 (tokenize_title_tokens _ _ H))].
Defined.

Lemma rank_connectors_components_witness :
  exists c,
    In c (rank_connectors (list_to_set ["python"; "java"]%string) (Some "python engineer") None None
            (1#2) (1#4) (1#4) 2
            [{| cp_id := "a"; cp_name := "A"; cp_skills := ["Python"]; cp_canon_tokens := [];
                cp_title_tokens := ["engineer"]; cp_bS := 1; cp_bJ := 0; cp_bpS := 0;
                cp_bpJ := 0; cp_bcS := 0; cp_bcJ := 0 |};
             {| cp_id := "b"; cp_name := "B"; cp_skills := ["Java"]; cp_canon_tokens := ["manager"];
                cp_title_tokens := []; cp_bS := 3; cp_bJ := 1; cp_bpS := 0;
                cp_bpJ := 0; cp_bcS := 0; cp_bcJ := 0 |}]) /\
    0 <= cn_struct c <= 1.
Proof.
  match goal with
  | |- exists c, In c ?e /\ _ =>
      destruct e as [|c rest] eqn:E; [vm_compute in E; discriminate|]
  end.
  pose proof (eq_ind_r (fun l => In c l) (or_introl eq_refl : In c (c :: rest)) E) as Hin.
  exists c. split; [left; reflexivity|].
  exact (proj1 (proj2 (proj2 (proj2 (rank_connectors_components _ _ _ _ _ _ _ _ _ _ Hin))))).
Defined.
